(** * Spiking neural network core: snn/model_struct.py

    A shallow embedding of the leaky-integrate-and-fire neuron
    ([SpikyNode]), the layer ([SpikyLayer]) and the two-layer network
    ([SpikyNet]), followed by the properties of the design document that
    concern them.

    Numbers are IEEE binary64 values (Python [float], numpy [float64]),
    taken from the executable specification of the Standard Library
    ([SpecFloat], precision 53, maximal exponent 1024).  Python objects are
    records; a method is a computation in the monad [Py], which threads the
    object, collects what is printed and may raise an exception. *)

From Stdlib Require Import ZArith Bool Lia.
From Stdlib Require Import Floats.SpecFloat.
From stdpp Require Import base list strings gmap.

(** ** Floating-point numbers *)

Definition float : Type := spec_float.

Module Float.

Definition prec : Z := 53.
Definition emax : Z := 1024.

Definition add : float -> float -> float := SFadd prec emax.
Definition sub : float -> float -> float := SFsub prec emax.
Definition mul : float -> float -> float := SFmul prec emax.
Definition div : float -> float -> float := SFdiv prec emax.
Definition abs : float -> float := SFabs.

(** [x == y] and [x >= y]; both are false as soon as one side is NaN. *)
Definition eqb : float -> float -> bool := SFeqb.
Definition geb (x y : float) : bool := SFleb y x.

(** [float(z)] for an integer [z]. *)
Definition of_int (z : Z) : float := binary_normalize prec emax z 0 false.

(** The literal [num/den] written in decimal, e.g. [0.5] is [decimal 5 10]:
    the double nearest to the quotient. *)
Definition decimal (num den : Z) : float := div (of_int num) (of_int den).

Definition inf : float := S754_infinity false.
Definition neg_inf : float := S754_infinity true.
Definition zero : float := S754_zero false.
Definition neg_zero : float := S754_zero true.
Definition one : float := of_int 1.

(** A value that denotes a real number: neither an infinity nor NaN. *)
Definition is_finite (x : float) : bool :=
  match x with
  | S754_zero _ | S754_finite _ _ _ => true
  | S754_infinity _ | S754_nan => false
  end.

Definition is_zero (x : float) : bool :=
  match x with
  | S754_zero _ => true
  | _ => false
  end.

Definition is_nan (x : float) : bool :=
  match x with
  | S754_nan => true
  | _ => false
  end.

End Float.

(** ** Exceptions, printed diagnostics and the monad of methods *)

Inductive exn : Type :=
  | ZeroDivisionError
  | OverflowError
  | IndexError
  | KeyError (key : string).

Inductive result (A : Type) : Type :=
  | Ok (a : A)
  | Raise (e : exn).
Arguments Ok {A} a.
Arguments Raise {A} e.

#[global] Instance result_ret : MRet result := fun A a => Ok a.
#[global] Instance result_bind : MBind result := fun A B k m =>
  match m with
  | Ok a => k a
  | Raise e => Raise e
  end.

(** What the two [print] calls of the module write. *)
Inductive diag : Type :=
  | InputMismatch (n_inputs n_weights : nat) (weights : list float)
  | WeightMismatch.

(** A method of an object of type [S]: from the object before the call to
    the returned value or raised exception, the object after the call, and
    the lines printed meanwhile. *)
Definition Py (S A : Type) : Type := S -> result A * S * list diag.

#[global] Instance Py_ret {S} : MRet (Py S) := fun A a s => (Ok a, s, []).
#[global] Instance Py_bind {S} : MBind (Py S) := fun A B k m s =>
  match m s with
  | (Ok a, s', out) => let '(r, s'', out') := k a s' in (r, s'', out ++ out')
  | (Raise e, s', out) => (Raise e, s', out)
  end.

Definition get {S} : Py S S := fun s => (Ok s, s, []).
Definition modify {S} (f : S -> S) : Py S unit := fun s => (Ok tt, f s, []).
Definition print {S} (d : diag) : Py S unit := fun s => (Ok tt, s, [d]).
Definition lift {S A} (r : result A) : Py S A := fun s => (r, s, []).

(** Run a method of a component [T] of the object [S]. *)
Definition zoom {S T A} (proj : S -> T) (upd : T -> S -> S) (m : Py T A) : Py S A :=
  fun s => let '(r, t', out) := m (proj s) in (r, upd t' s, out).

Definition returned {S A} (o : result A * S * list diag) : result A := o.1.1.
Definition after {S A} (o : result A * S * list diag) : S := o.1.2.
Definition printed {S A} (o : result A * S * list diag) : list diag := o.2.

(** ** Python built-ins used by the module *)

(** [l[i]] for [0 <= i]. *)
Definition py_index {A} (l : list A) (i : nat) : result A :=
  match l !! i with
  | Some x => Ok x
  | None => Raise IndexError
  end.

(** Where a slice bound [i] falls in a sequence of length [len]:
    negative bounds count from the end, and the outcome is clamped. *)
Definition slice_bound (len : nat) (i : Z) : nat :=
  let i' := (if i <? 0 then i + Z.of_nat len else i)%Z in
  if (i' <? 0)%Z then 0 else Nat.min (Z.to_nat i') len.

(** [l[start:]], [l[:stop]] and [l[start:stop]]. *)
Definition slice_from {A} (l : list A) (start : Z) : list A :=
  drop (slice_bound (length l) start) l.
Definition slice_to {A} (l : list A) (stop : Z) : list A :=
  take (slice_bound (length l) stop) l.
Definition slice {A} (l : list A) (start stop : Z) : list A :=
  let lo := slice_bound (length l) start in
  let hi := slice_bound (length l) stop in
  take (hi - lo) (drop lo l).

(** [l[:stop] = new], for a list. *)
Definition assign_slice_to {A} (l : list A) (stop : Z) (new : list A) : list A :=
  new ++ drop (slice_bound (length l) stop) l.

(** [sum] of integers, and of floats: the accumulator starts at the
    integer [0], which the first addition converts to [0.0]. *)
Definition sum_int (l : list Z) : Z := foldl Z.add 0%Z l.
Definition sum_float (l : list float) : float := foldl Float.add Float.zero l.

(** An integer as the operand of a true division: exact, whatever its
    size. *)
Definition int_operand (z : Z) : float :=
  match z with
  | Z0 => Float.zero
  | Zpos p => S754_finite false p 0
  | Zneg p => S754_finite true p 0
  end.

(** [a / b] on integers: the double nearest to the quotient. *)
Definition int_truediv (a b : Z) : result float :=
  if (b =? 0)%Z then Raise ZeroDivisionError
  else match Float.div (int_operand a) (int_operand b) with
       | S754_infinity _ => Raise OverflowError
       | q => Ok q
       end.


(** ** Constants *)

Definition SPIKE_DECAY : float := Float.decimal 1 10.
Definition MAX_BIAS : Z := 1.
Definition MAX_FIRELOG_SIZE : nat := 200.

(** ** RingBuffer (snn/ring_buffer.py) *)

Module RingBuffer.

(** Modelled from the spec: the class [RingBuffer] of snn/ring_buffer.py,
    which the neuron imports.  It has a fixed capacity, a sequence of at
    most that many entries and a cursor at the write position.  [add]
    appends while the buffer is not full and then overwrites the oldest
    entry in place; [get] returns the entries oldest first; [length] is
    the number of stored entries. *)
Record t : Type := mk
  { capacity : nat;
    data : list Z;
    cursor : nat }.

(** Modelled from the spec: [RingBuffer(size)], an empty buffer of the
    given capacity (a positive integer). *)
Definition __init__ (size : nat) : t :=
  {| capacity := size; data := []; cursor := 0 |}.

(** Modelled from the spec: [add(value)] appends while the buffer is not
    full; once full it overwrites the oldest entry in place, at the
    cursor, which then moves on and wraps around. *)
Definition add (value : Z) (self : t) : t :=
  {| capacity := capacity self;
     data := if length (data self) <? capacity self
             then data self ++ [value]
             else <[cursor self := value]> (data self);
     cursor := (cursor self + 1) `mod` capacity self |}.

(** Modelled from the spec: [get()] returns the stored entries in
    chronological order, as a list: those from the cursor on, then those
    before it. *)
Definition get (self : t) : list Z :=
  drop (cursor self) (data self) ++ take (cursor self) (data self).

(** Modelled from the spec: [length()] is the number of stored entries,
    not the capacity. *)
Definition length (self : t) : nat := List.length (data self).

(** The buffers that [__init__] and [add] produce, for a positive
    capacity: while the buffer fills up the cursor is at the end of the
    data, and once it is full the cursor is at the oldest entry. *)
Definition wf (self : t) : Prop :=
  0 < capacity self /\
  List.length (data self) <= capacity self /\
  (List.length (data self) < capacity self -> cursor self = List.length (data self)) /\
  (List.length (data self) = capacity self -> cursor self < capacity self).

End RingBuffer.

(** ** The random source of numpy *)

(** [np.random] as a sequence of samples and the position of the next one. *)
Record RandomState : Type := mkRandomState
  { sample : nat -> float;
    position : nat }.

(** [np.random.uniform(-1, 1, n)]: the next [n] samples. *)
Definition uniform (n : nat) (g : RandomState) : list float * RandomState :=
  (map (sample g) (seq (position g) n),
   {| sample := sample g; position := position g + n |}).

(** ** SpikyNode *)

Module SpikyNode.

Record t : Type := mk
  { _weights : list float;
    level : float;
    firelog : RingBuffer.t;
    levels_log : list float }.

Definition set__weights (w : list float) (self : t) : t :=
  {| _weights := w; level := level self;
     firelog := firelog self; levels_log := levels_log self |}.
Definition set_level (l : float) (self : t) : t :=
  {| _weights := _weights self; level := l;
     firelog := firelog self; levels_log := levels_log self |}.
Definition set_firelog (f : RingBuffer.t) (self : t) : t :=
  {| _weights := _weights self; level := level self;
     firelog := f; levels_log := levels_log self |}.
Definition set_levels_log (l : list float) (self : t) : t :=
  {| _weights := _weights self; level := level self;
     firelog := firelog self; levels_log := l |}.

Definition __init__ (size : nat) (g : RandomState) : t * RandomState :=
  let '(w, g') := uniform (size + 1) g in
  ({| _weights := w;
      level := Float.neg_inf;
      firelog := RingBuffer.__init__ MAX_FIRELOG_SIZE;
      levels_log := [] |}, g').

(** [self._weights[-1]] *)
Definition get_bias : Py t float := fun self =>
  match last (_weights self) with
  | Some b => (Ok b, self, [])
  | None => (Raise IndexError, self, [])
  end.

(** [sum(inputs[i] * self._weights[i] for i in range(len(inputs)))],
    the accumulator being [acc] and the remaining indices [idxs]. *)
Fixpoint weighted_sum_from (inputs weights : list float) (idxs : list nat)
    (acc : float) : result float :=
  match idxs with
  | [] => Ok acc
  | i :: idxs' =>
      x ← py_index inputs i;
      w ← py_index weights i;
      weighted_sum_from inputs weights idxs' (Float.add acc (Float.mul x w))
  end.

Definition weighted_sum (inputs weights : list float) : result float :=
  weighted_sum_from inputs weights (seq 0 (length inputs)) Float.zero.

Definition compute (inputs : list float) : Py t (float * float) :=
  modify (fun self =>
    set_level (Float.mul (level self) (Float.sub (Float.of_int 1) SPIKE_DECAY)) self);;
  self ← get;
  if negb (length inputs + 1 =? length (_weights self)) then
    print (InputMismatch (length inputs) (length (_weights self)) (_weights self));;
    mret (Float.zero, level self)
  else
    weighted_sum ← lift (weighted_sum inputs (_weights self));
    (if Float.eqb (level self) Float.neg_inf
     then modify (set_level weighted_sum)
     else modify (fun self => set_level (Float.add (level self) weighted_sum) self));;
    modify (fun self => set_levels_log (levels_log self ++ [level self]) self);;
    self ← get;
    bias ← get_bias;
    if Float.geb (level self) bias then
      modify (set_level Float.neg_inf);;
      modify (fun self => set_firelog (RingBuffer.add 1 (firelog self)) self);;
      self ← get;
      mret (Float.one, level self)
    else
      modify (fun self => set_firelog (RingBuffer.add 0 (firelog self)) self);;
      self ← get;
      mret (Float.zero, level self).

(** The value of [window] when the caller does not pass it. *)
Definition duty_cycle_default_window : option Z := Some 100%Z.

(** [window] is [None] for Python's [None] and [Some w] for an integer. *)
Definition duty_cycle (window : option Z) : Py t float :=
  self ← get;
  if RingBuffer.length (firelog self) =? 0 then mret Float.zero
  else
    let len := Z.of_nat (RingBuffer.length (firelog self)) in
    let window :=
      match window with
      | None => len
      | Some w => if (w >? len)%Z then len else w
      end in
    let recent_fires := slice_from (RingBuffer.get (firelog self)) (- window) in
    lift (int_truediv (sum_int recent_fires) window).

(** A call that may leave [window] out: [arg] is [None] for
    [duty_cycle()] and [Some w] for [duty_cycle(w)]. *)
Definition call_duty_cycle (arg : option (option Z)) : Py t float :=
  duty_cycle (default duty_cycle_default_window arg).

Definition set_weights (input_weights : list float) : Py t unit :=
  self ← get;
  if negb (length input_weights =? length (_weights self)) then
    print WeightMismatch
  else
    modify (set__weights input_weights);;
    modify (fun self =>
      set__weights
        (assign_slice_to (_weights self) (-1)
           (map Float.abs (slice_to (_weights self) (-1))))
        self).

Definition set_bias (val : float) : Py t unit :=
  self ← get;
  match _weights self with
  | [] => lift (Raise IndexError)
  | _ => modify (set__weights (<[length (_weights self) - 1 := val]> (_weights self)))
  end.

Definition get_levels_log : Py t (list float) :=
  self ← get; mret (levels_log self).

Definition weights : Py t (list float) :=
  self ← get; mret (_weights self).

End SpikyNode.

(** ** SpikyLayer *)

Module SpikyLayer.

Record t : Type := mk { nodes : list SpikyNode.t }.

Definition set_nodes (ns : list SpikyNode.t) (self : t) : t := {| nodes := ns |}.

(** [[SpikyNode(num_inputs) for _ in range(num_nodes)]] *)
Fixpoint make_nodes (num_nodes num_inputs : nat) (g : RandomState)
    : list SpikyNode.t * RandomState :=
  match num_nodes with
  | 0 => ([], g)
  | S k =>
      let '(node, g') := SpikyNode.__init__ num_inputs g in
      let '(rest, g'') := make_nodes k num_inputs g' in
      (node :: rest, g'')
  end.

Definition __init__ (num_nodes num_inputs : nat) (g : RandomState) : t * RandomState :=
  let '(ns, g') := make_nodes num_nodes num_inputs g in ({| nodes := ns |}, g').

(** The loop of [compute] over the nodes still to visit, with the two
    lists built so far. *)
Fixpoint compute_loop (inputs : list float) (outputs levels : list float)
    : Py (list SpikyNode.t) (list float * list float) := fun todo =>
  match todo with
  | [] => (Ok (outputs, levels), [], [])
  | node :: todo' =>
      match SpikyNode.compute inputs node with
      | (Ok (output, level), node', out) =>
          let '(r, todo'', out') :=
            compute_loop inputs (outputs ++ [output]) (levels ++ [level]) todo' in
          (r, node' :: todo'', out ++ out')
      | (Raise e, node', out) => (Raise e, node' :: todo', out)
      end
  end.

Definition compute (inputs : list float) : Py t (list float * list float) :=
  zoom nodes set_nodes (compute_loop inputs [] []).

(** The loop of [set_weights] over [enumerate(self.nodes)], from index
    [idx] on. *)
Fixpoint set_weights_loop (input_weights : list float) (weights_per_node idx : nat)
    : Py (list SpikyNode.t) unit := fun todo =>
  match todo with
  | [] => (Ok tt, [], [])
  | node :: todo' =>
      let start := idx * weights_per_node in
      let end_ := start + weights_per_node in
      match SpikyNode.set_weights
              (slice input_weights (Z.of_nat start) (Z.of_nat end_)) node with
      | (Ok _, node', out) =>
          let '(r, todo'', out') :=
            set_weights_loop input_weights weights_per_node (S idx) todo' in
          (r, node' :: todo'', out ++ out')
      | (Raise e, node', out) => (Raise e, node' :: todo', out)
      end
  end.

Definition set_weights (input_weights : list float) : Py t unit :=
  self ← get;
  match nodes self with
  | [] => mret tt
  | _ =>
      let weights_per_node := length input_weights / length (nodes self) in
      zoom nodes set_nodes (set_weights_loop input_weights weights_per_node 0)
  end.

(** [[node.duty_cycle(window) for node in self.nodes]] *)
Fixpoint duty_cycles_loop (window : option Z)
    : Py (list SpikyNode.t) (list float) := fun todo =>
  match todo with
  | [] => (Ok [], [], [])
  | node :: todo' =>
      match SpikyNode.duty_cycle window node with
      | (Ok d, node', out) =>
          let '(r, todo'', out') := duty_cycles_loop window todo' in
          (ds ← r; mret (d :: ds), node' :: todo'', out ++ out')
      | (Raise e, node', out) => (Raise e, node' :: todo', out)
      end
  end.

Definition duty_cycles (window : option Z) : Py t (list float) :=
  zoom nodes set_nodes (duty_cycles_loop window).

End SpikyLayer.

(** ** SpikyNet *)

Module SpikyNet.

Record t : Type := mk
  { hidden_layer : SpikyLayer.t;
    output_layer : SpikyLayer.t }.

Definition set_hidden_layer (l : SpikyLayer.t) (self : t) : t :=
  {| hidden_layer := l; output_layer := output_layer self |}.
Definition set_output_layer (l : SpikyLayer.t) (self : t) : t :=
  {| hidden_layer := hidden_layer self; output_layer := l |}.

Definition __init__ (input_size hidden_size output_size : nat) (g : RandomState)
    : t * RandomState :=
  let '(h, g') := SpikyLayer.__init__ hidden_size input_size g in
  let '(o, g'') := SpikyLayer.__init__ output_size hidden_size g' in
  ({| hidden_layer := h; output_layer := o |}, g'').

Definition compute (inputs : list float) (firelog_window : Z)
    : Py t (list float * list float) :=
  '(hidden_output, hidden_levels) ←
     zoom hidden_layer set_hidden_layer (SpikyLayer.compute inputs);
  '(output, levels) ←
     zoom output_layer set_output_layer (SpikyLayer.compute hidden_output);
  mret (output, levels).

(** [input_weights[key]] on a dictionary. *)
Definition getitem (input_weights : gmap string (list float)) (key : string)
    : result (list float) :=
  match input_weights !! key with
  | Some v => Ok v
  | None => Raise (KeyError key)
  end.

Definition set_weights (input_weights : gmap string (list float)) : Py t unit :=
  hidden ← lift (getitem input_weights "hidden_layer");
  zoom hidden_layer set_hidden_layer (SpikyLayer.set_weights hidden);;
  output ← lift (getitem input_weights "output_layer");
  zoom output_layer set_output_layer (SpikyLayer.set_weights output).

End SpikyNet.


(** ** Notions used to state the properties *)

(** The level after the decay step of [compute]. *)
Definition decayed (l : float) : float :=
  Float.mul l (Float.sub (Float.of_int 1) SPIKE_DECAY).

(** A binary64 number that is neither an infinity nor NaN. *)
Definition real_number (x : float) : Prop :=
  Float.is_finite x = true /\ valid_binary Float.prec Float.emax x = true.

(** The closed form of the weighted sum when every index is in range. *)
Definition dot (inputs weights : list float) : float :=
  sum_float (zip_with Float.mul inputs weights).

(** The neurons that [__init__], [compute] and [set_weights] produce keep
    a firing history of capacity [MAX_FIRELOG_SIZE] whose entries are 0
    or 1. *)
Definition node_wf (n : SpikyNode.t) : Prop :=
  RingBuffer.wf (SpikyNode.firelog n) /\
  RingBuffer.capacity (SpikyNode.firelog n) = MAX_FIRELOG_SIZE /\
  Forall (fun v => v = 0%Z \/ v = 1%Z) (RingBuffer.data (SpikyNode.firelog n)).

(** The neurons that a program can hold: built by [__init__] and then
    taken through calls of [compute] and [set_weights]. *)
Inductive reachable : SpikyNode.t -> Prop :=
  | reachable_init (size : nat) (g : RandomState) :
      reachable (SpikyNode.__init__ size g).1
  | reachable_compute (n : SpikyNode.t) (inputs : list float) :
      reachable n -> reachable (after (SpikyNode.compute inputs n))
  | reachable_set_weights (n : SpikyNode.t) (input_weights : list float) :
      reachable n -> reachable (after (SpikyNode.set_weights input_weights n)).

(** The firing history of a neuron, oldest entry first. *)
Definition history (n : SpikyNode.t) : list Z := RingBuffer.get (SpikyNode.firelog n).

(** The number of 1s in a list of entries, and its last [k] entries. *)
Definition ones (l : list Z) : Z := Z.of_nat (length (filter (fun v => v = 1%Z) l)).
Definition last_entries (k : nat) (l : list Z) : list Z := drop (length l - k) l.

(** A weight vector as [set_weights] stores it: every entry but the last
    replaced by its absolute value. *)
Fixpoint abs_but_last (w : list float) : list float :=
  match w with
  | [] => []
  | [b] => [b]
  | x :: w' => Float.abs x :: abs_but_last w'
  end.

(** The [i]-th of the chunks of [k] elements of a flat vector. *)
Definition chunk (k : nat) (flat : list float) (i : nat) : list float :=
  take k (drop (i * k) flat).

(** The level that [compute] reaches before the threshold check. *)
Definition charged (n : SpikyNode.t) (inputs : list float) : float :=
  if Float.eqb (decayed (SpikyNode.level n)) Float.neg_inf
  then dot inputs (SpikyNode._weights n)
  else Float.add (decayed (SpikyNode.level n)) (dot inputs (SpikyNode._weights n)).

(** ** Sample objects *)

(** A neuron with the given weights and level and no history yet. *)
Definition node_of (w : list float) (l : float) : SpikyNode.t :=
  {| SpikyNode._weights := w;
     SpikyNode.level := l;
     SpikyNode.firelog := RingBuffer.__init__ MAX_FIRELOG_SIZE;
     SpikyNode.levels_log := [] |}.

(** A neuron with the given weights, at rest, whose history is [h]
    (shorter than the capacity). *)
Definition node_with_history (w : list float) (h : list Z) : SpikyNode.t :=
  {| SpikyNode._weights := w;
     SpikyNode.level := Float.neg_inf;
     SpikyNode.firelog :=
       {| RingBuffer.capacity := MAX_FIRELOG_SIZE;
          RingBuffer.data := h;
          RingBuffer.cursor := length h |};
     SpikyNode.levels_log := [] |}.

(** One input, charged to level 1.0. *)
Definition charged_node : SpikyNode.t :=
  node_of [Float.of_int 1; Float.decimal 5 10] (Float.of_int 1).

(** One input, bias 2.0, charged to level 1.0. *)
Definition high_bias_node : SpikyNode.t :=
  node_of [Float.of_int 1; Float.of_int 2] (Float.of_int 1).

(** One input, at rest, with bias -0.5. *)
Definition negative_bias_node : SpikyNode.t :=
  node_of [Float.of_int 1; Float.decimal (-5) 10] Float.neg_inf.

(** Two inputs, at rest, with bias 0.5. *)
Definition resting_node : SpikyNode.t :=
  node_of [Float.of_int 1; Float.of_int 1; Float.decimal 5 10] Float.neg_inf.

(** 101 steps of history: one spike followed by 100 silent steps. *)
Definition long_history_node : SpikyNode.t :=
  node_with_history [Float.of_int 1; Float.decimal 5 10] (1%Z :: replicate 100 0%Z).

Definition short_history_node : SpikyNode.t :=
  node_with_history [Float.of_int 1; Float.decimal 5 10] [1; 0; 1; 1]%Z.

(** The genome of the end-to-end scenario. *)
Definition scenario_genome : gmap string (list float) :=
  {[ "hidden_layer" := [Float.of_int 1; Float.of_int 1; Float.decimal 5 10];
     "output_layer" := [Float.of_int 1; Float.decimal 5 10] ]}.

(** A layer of one neuron with one input. *)
Definition one_node_layer : SpikyLayer.t := {| SpikyLayer.nodes := [charged_node] |}.

(** A layer of two neurons with one input each. *)
Definition two_node_layer : SpikyLayer.t :=
  {| SpikyLayer.nodes := [charged_node; negative_bias_node] |}.

(** The nodes of a layer after [set_weights], from index [idx] on: node
    number [idx + j] has been handed chunk number [idx + j]. *)
Definition handed (k : nat) (flat : list float) (idx : nat) (todo : list SpikyNode.t)
    : list SpikyNode.t :=
  imap (fun j node => after (SpikyNode.set_weights (chunk k flat (idx + j)) node)) todo.

(** A random source that always yields 0.3. *)
Definition constant_source : RandomState :=
  {| sample := fun _ => Float.decimal 3 10; position := 0 |}.

(** The output neuron of the end-to-end scenario: one input, bias 0.5. *)
Definition scenario_output_node : SpikyNode.t :=
  node_of [Float.of_int 1; Float.decimal 5 10] Float.neg_inf.

(** The network of the end-to-end scenario: built with two inputs, one
    hidden and one output neuron, then given the genome. *)
Definition scenario_net (g : RandomState) : SpikyNet.t :=
  after (SpikyNet.set_weights scenario_genome (SpikyNet.__init__ 2 1 1 g).1).

(** The double that [a / b] yields on integers when it does not
    overflow. *)
Definition quotient (a b : Z) : float := Float.div (int_operand a) (int_operand b).

(** [q] is a binary64 number at most half a unit in the last place away
    from the rational [a / b], for [0 <= a] and [0 < b]. *)
Definition rounds (a b : Z) (q : float) : bool :=
  match q with
  | S754_zero false => (a =? 0)%Z
  | S754_finite false m e =>
      bounded Float.prec Float.emax m e && (e <? 0)%Z &&
      (2 * Z.abs (Z.pos m * b - a * 2 ^ (- e)) <=? b)%Z
  | _ => false
  end.

(** What is checked of the division [a / b] for a window [b]. *)
Definition fraction_ok (a b : Z) : bool :=
  match int_truediv a b with
  | Ok q => rounds a b q && Float.geb q Float.zero && Float.geb Float.one q
  | Raise _ => false
  end.

(** [f a b] holds for every window [0 < b <= bound] and every count
    [0 <= a <= b]. *)
Definition table_ok (f : Z -> Z -> bool) (bound : nat) : bool :=
  forallb (fun b => forallb (fun a => f (Z.of_nat a) (Z.of_nat (S b))) (seq 0 (S (S b))))
          (seq 0 bound).

(** ** Notions used to state further properties *)

(** [x < 0] *)
Definition negative (x : float) : bool := SFltb x Float.zero.

(** A firing output: 0.0 or 1.0. *)
Definition binary (x : float) : Prop := x = Float.zero \/ x = Float.one.

(** A call of one of the methods that change a neuron. *)
Inductive node_call : Type :=
  | CallCompute (inputs : list float)
  | CallSetWeights (input_weights : list float)
  | CallSetBias (val : float).

(** The neuron after a call, whether the call returned or raised. *)
Definition do_call (n : SpikyNode.t) (c : node_call) : SpikyNode.t :=
  match c with
  | CallCompute inputs => after (SpikyNode.compute inputs n)
  | CallSetWeights input_weights => after (SpikyNode.set_weights input_weights n)
  | CallSetBias val => after (SpikyNode.set_bias val n)
  end.

Definition do_calls (n : SpikyNode.t) (calls : list node_call) : SpikyNode.t :=
  foldl do_call n calls.

(** The neuron after one call of [compute] per input vector, in order. *)
Definition run_inputs (n : SpikyNode.t) (steps : list (list float)) : SpikyNode.t :=
  foldl (fun n inputs => after (SpikyNode.compute inputs n)) n steps.

(** The steps whose width fits a neuron with [k] weights. *)
Definition accepted (k : nat) (steps : list (list float)) : list (list float) :=
  filter (fun inputs => length inputs + 1 = k) steps.

(** A layer of [num_nodes] neurons with [num_inputs] inputs each, and a
    network of the given sizes. *)
Definition layer_shape (num_nodes num_inputs : nat) (l : SpikyLayer.t) : Prop :=
  length (SpikyLayer.nodes l) = num_nodes /\
  Forall (fun n => length (SpikyNode._weights n) = num_inputs + 1) (SpikyLayer.nodes l).

Definition net_shape (input_size hidden_size output_size : nat) (net : SpikyNet.t) : Prop :=
  layer_shape hidden_size input_size (SpikyNet.hidden_layer net) /\
  layer_shape output_size hidden_size (SpikyNet.output_layer net).

(** For every count [a] and window [w] with [a + w <= bound] and
    [0 < w], [f a w] holds. *)
Definition table_sum_ok (f : Z -> Z -> bool) (bound : nat) : bool :=
  forallb (fun w => forallb (fun a => f (Z.of_nat a) (Z.of_nat (S w))) (seq 0 (bound - w)))
          (seq 0 bound).

(** What is checked of the division [a / -w] for a negative window. *)
Definition negative_fraction_ok (a w : Z) : bool :=
  match int_truediv a (- w) with
  | Ok q => Float.geb Float.zero q
  | Raise _ => false
  end.

(** A neuron whose level is NaN. *)
Definition nan_node : SpikyNode.t :=
  node_of [Float.of_int 1; Float.decimal 5 10] S754_nan.

(** A neuron without weights, as [SpikyNode(-1)] would be. *)
Definition empty_node : SpikyNode.t := node_of [] Float.neg_inf.

(** The firing output of a neuron on [inputs]. *)
Definition node_output (inputs : list float) (n : SpikyNode.t) : float :=
  match returned (SpikyNode.compute inputs n) with
  | Ok (output, _) => output
  | Raise _ => Float.zero
  end.

(** The neuron after a step on [inputs], and its level then. *)
Definition node_step (inputs : list float) (n : SpikyNode.t) : SpikyNode.t :=
  after (SpikyNode.compute inputs n).
Definition node_level (inputs : list float) (n : SpikyNode.t) : float :=
  SpikyNode.level (node_step inputs n).

(** A neuron as [__init__] builds it from the weights drawn for it. *)
Definition fresh_node (w : list float) : SpikyNode.t := node_of w Float.neg_inf.

(** The two neurons of the end-to-end scenario after the first step:
    weights as assigned, back at rest, one spike in the firing history
    and the level reached in the levels log. *)
Definition scenario_hidden_after : SpikyNode.t :=
  {| SpikyNode._weights := [Float.of_int 1; Float.of_int 1; Float.decimal 5 10];
     SpikyNode.level := Float.neg_inf;
     SpikyNode.firelog := RingBuffer.add 1 (RingBuffer.__init__ MAX_FIRELOG_SIZE);
     SpikyNode.levels_log := [Float.of_int 2] |}.

Definition scenario_output_after : SpikyNode.t :=
  {| SpikyNode._weights := [Float.of_int 1; Float.decimal 5 10];
     SpikyNode.level := Float.neg_inf;
     SpikyNode.firelog := RingBuffer.add 1 (RingBuffer.__init__ MAX_FIRELOG_SIZE);
     SpikyNode.levels_log := [Float.one] |}.

(** One input of weight infinity, bias 2.0, charged to level 1.0. *)
Definition inf_weight_node : SpikyNode.t :=
  node_of [Float.inf; Float.of_int 2] (Float.of_int 1).

(** * Properties *)

Ltac run :=
  unfold mbind, mret, Py_bind, Py_ret, result_bind, result_ret,
         get, modify, print, lift, zoom, returned, after, printed in *;
  cbn [fst snd] in *.

#[local] Arguments Float.of_int : simpl never.
#[local] Arguments Float.add : simpl never.
#[local] Arguments Float.sub : simpl never.
#[local] Arguments Float.mul : simpl never.
#[local] Arguments Float.div : simpl never.
#[local] Arguments Float.eqb : simpl never.
#[local] Arguments Float.geb : simpl never.
#[local] Arguments Float.one : simpl never.
#[local] Arguments SPIKE_DECAY : simpl never.
#[local] Arguments decayed : simpl never.
#[local] Arguments dot : simpl never.
#[local] Arguments RingBuffer.add : simpl never.
#[local] Arguments RingBuffer.get : simpl never.
#[local] Arguments int_truediv : simpl never.

(** ** Floating-point facts *)

Lemma decayed_neg_inf : decayed Float.neg_inf = Float.neg_inf.
Proof. vm_compute. reflexivity. Qed.

Lemma one_not_zero : Float.one <> Float.zero.
Proof. vm_compute. discriminate. Qed.

(** ** The ring buffer *)

Section RingBufferFacts.

Import RingBuffer.

Lemma wf_init (size : nat) : 0 < size -> wf (__init__ size).
Proof. intros H. unfold wf, __init__; cbn. repeat split; lia. Qed.

Lemma length_get (b : t) : List.length (get b) = length b.
Proof.
  unfold get, length. rewrite length_app, length_drop, length_take. lia.
Qed.

Lemma get_filling (b : t) :
  wf b -> List.length (data b) < capacity b -> get b = data b.
Proof.
  intros (_ & _ & Hc & _) Hlt. unfold get. rewrite (Hc Hlt).
  rewrite drop_all, firstn_all. reflexivity.
Qed.

(** [add] on the chronological view: append, and drop the oldest entry
    once the buffer is full. *)
Lemma get_add (v : Z) (b : t) :
  wf b ->
  get (add v b) =
    if List.length (get b) <? capacity b then get b ++ [v]
    else drop 1 (get b) ++ [v].
Proof.
  intros Hwf. rewrite length_get. unfold length.
  destruct Hwf as (Hpos & Hle & Hfill & Hfull).
  unfold get, add; cbn [capacity data cursor].
  destruct (Nat.ltb_spec (List.length (data b)) (capacity b)) as [Hlt|Hge].
  - rewrite (Hfill Hlt). rewrite drop_all, firstn_all. cbn.
    destruct (decide (List.length (data b) + 1 = capacity b)) as [He|Hne].
    + rewrite He, Nat.Div0.mod_same. cbn. rewrite app_nil_r. reflexivity.
    + rewrite Nat.mod_small by lia.
      rewrite drop_ge by (rewrite length_app; cbn; lia).
      rewrite take_ge by (rewrite length_app; cbn; lia). reflexivity.
  - assert (Hlen : List.length (data b) = capacity b) by lia.
    specialize (Hfull Hlen).
    destruct (lookup_lt_is_Some_2 (data b) (cursor b)) as [x Hx]; [lia|].
    rewrite (drop_S _ _ _ Hx). cbn. rewrite drop_0.
    destruct (decide (cursor b + 1 = capacity b)) as [He|Hne].
    + rewrite He, Nat.Div0.mod_same. cbn. rewrite app_nil_r.
      rewrite (drop_ge _ (S (cursor b))) by lia. cbn.
      rewrite <- (take_drop_middle _ _ _ Hx) at 1.
      rewrite insert_app_r_alt by (rewrite length_take; lia).
      rewrite length_take, Nat.min_l, Nat.sub_diag by lia. cbn.
      rewrite (drop_ge _ (S (cursor b))) by lia. reflexivity.
    + rewrite Nat.mod_small by lia.
      replace (cursor b + 1) with (S (cursor b)) by lia.
      rewrite drop_insert_lt by lia.
      rewrite (take_S_r _ _ v) by (apply list_lookup_insert_eq; lia).
      rewrite take_insert_ge by lia. rewrite app_assoc. reflexivity.
Qed.

Lemma wf_add (v : Z) (b : t) : wf b -> wf (add v b).
Proof.
  intros (Hpos & Hle & Hfill & Hfull). unfold wf, add; cbn [capacity data cursor].
  destruct (Nat.ltb_spec (List.length (data b)) (capacity b)) as [Hlt|Hge].
  - rewrite length_app; cbn. rewrite (Hfill Hlt).
    repeat split; try lia.
    + intros H. apply Nat.mod_small. lia.
    + intros H. apply Nat.mod_upper_bound. lia.
  - rewrite length_insert. repeat split; try lia.
    intros _. apply Nat.mod_upper_bound. lia.
Qed.

Lemma last_get_add (v : Z) (b : t) : wf b -> last (get (add v b)) = Some v.
Proof.
  intros Hwf. rewrite get_add by assumption.
  destruct (_ <? _); apply last_snoc.
Qed.

Lemma capacity_add (v : Z) (b : t) : capacity (add v b) = capacity b.
Proof. reflexivity. Qed.

Lemma Forall_data_add (P : Z -> Prop) (v : Z) (b : t) :
  P v -> Forall P (data b) -> Forall P (data (add v b)).
Proof.
  intros Hv Hb. unfold add; cbn [capacity data cursor]. destruct (_ <? _).
  - apply Forall_app; split; [assumption | repeat constructor; assumption].
  - apply Forall_insert; assumption.
Qed.

Lemma Forall_get (P : Z -> Prop) (b : t) : Forall P (data b) -> Forall P (get b).
Proof.
  intros H. unfold get. apply Forall_app; split.
  - apply Forall_drop; assumption.
  - apply Forall_take; assumption.
Qed.

End RingBufferFacts.

(** ** The neuron *)

Section NodeFacts.

Import SpikyNode.

Lemma weighted_sum_from_seq (inputs weights : list float) :
  List.length inputs <= List.length weights ->
  forall (todo k : nat) (acc : float),
    k + todo = List.length inputs ->
    weighted_sum_from inputs weights (seq k todo) acc =
      Ok (foldl Float.add acc (zip_with Float.mul (drop k inputs) (drop k weights))).
Proof.
  intros Hlen todo. induction todo as [|todo IH]; intros k acc Hk; cbn.
  - rewrite (drop_ge inputs) by lia. reflexivity.
  - destruct (lookup_lt_is_Some_2 inputs k) as [x Hx]; [lia|].
    destruct (lookup_lt_is_Some_2 weights k) as [w Hw]; [lia|].
    unfold py_index. rewrite Hx, Hw. cbn.
    rewrite IH by lia.
    rewrite (drop_S _ _ _ Hx), (drop_S _ _ _ Hw). reflexivity.
Qed.

(** With fewer inputs than weights no index is out of range. *)
Lemma weighted_sum_dot (inputs weights : list float) :
  List.length inputs <= List.length weights ->
  weighted_sum inputs weights = Ok (dot inputs weights).
Proof.
  intros H. unfold weighted_sum.
  rewrite (weighted_sum_from_seq inputs weights H) by lia. reflexivity.
Qed.

Lemma compute_mismatch (n : t) (inputs : list float) :
  List.length inputs + 1 <> List.length (_weights n) ->
  compute inputs n =
    (Ok (Float.zero, decayed (level n)),
     set_level (decayed (level n)) n,
     [InputMismatch (List.length inputs) (List.length (_weights n)) (_weights n)]).
Proof.
  intros H. unfold compute. run. cbn.
  destruct (Nat.eqb_spec (List.length inputs + 1) (List.length (_weights n))); [lia|].
  cbn. reflexivity.
Qed.

Lemma compute_match (n : t) (inputs : list float) (bias : float) :
  List.length inputs + 1 = List.length (_weights n) ->
  last (_weights n) = Some bias ->
  compute inputs n =
    if Float.geb (charged n inputs) bias
    then (Ok (Float.one, Float.neg_inf),
          {| _weights := _weights n; level := Float.neg_inf;
             firelog := RingBuffer.add 1 (firelog n);
             levels_log := levels_log n ++ [charged n inputs] |}, [])
    else (Ok (Float.zero, charged n inputs),
          {| _weights := _weights n; level := charged n inputs;
             firelog := RingBuffer.add 0 (firelog n);
             levels_log := levels_log n ++ [charged n inputs] |}, []).
Proof.
  intros Hlen Hlast. unfold compute, charged. run. cbn.
  destruct (Nat.eqb_spec (List.length inputs + 1) (List.length (_weights n))); [|lia].
  cbn. rewrite weighted_sum_dot by lia. fold (decayed (level n)).
  fold Float.one.
  destruct (Float.eqb (decayed (level n)) Float.neg_inf); cbn;
    unfold get_bias; cbn; rewrite Hlast; cbn;
    destruct (Float.geb _ bias); reflexivity.
Qed.

Lemma last_is_Some (w : list float) : 0 < List.length w -> exists b, last w = Some b.
Proof.
  intros H. destruct (last w) as [b|] eqn:E; [eauto|].
  apply last_None in E. subst. cbn in H. lia.
Qed.

(** [compute] raises nothing, whatever the inputs. *)
Lemma compute_returns (n : t) (inputs : list float) :
  exists out lvl, returned (compute inputs n) = Ok (out, lvl) /\
                  lvl = level (after (compute inputs n)).
Proof.
  destruct (decide (List.length inputs + 1 = List.length (_weights n))) as [He|Hne].
  - destruct (last_is_Some (_weights n)) as [b Hb]; [lia|].
    rewrite (compute_match n inputs b He Hb).
    destruct (Float.geb _ b); cbn; eauto.
  - rewrite (compute_mismatch n inputs Hne). cbn. eauto.
Qed.

Lemma node_wf_init (size : nat) (g : RandomState) : node_wf (__init__ size g).1.
Proof.
  unfold __init__, node_wf; cbn. split; [|split; [reflexivity | constructor]].
  apply wf_init. unfold MAX_FIRELOG_SIZE. lia.
Qed.

Lemma node_wf_compute (n : t) (inputs : list float) :
  node_wf n -> node_wf (after (compute inputs n)).
Proof.
  intros (Hwf & Hcap & Hbits).
  destruct (decide (List.length inputs + 1 = List.length (_weights n))) as [He|Hne].
  - destruct (last_is_Some (_weights n)) as [b Hb]; [lia|].
    rewrite (compute_match n inputs b He Hb).
    destruct (Float.geb _ b); unfold after, node_wf; cbn [fst snd firelog];
      (split; [apply wf_add; assumption | split; [rewrite capacity_add; assumption|]]);
      apply Forall_data_add; auto.
  - rewrite (compute_mismatch n inputs Hne). unfold after, node_wf; cbn.
    split; [|split]; assumption.
Qed.

Lemma abs_but_last_length (w : list float) :
  List.length (abs_but_last w) = List.length w.
Proof.
  induction w as [|x [|y w] IH]; cbn in *; try reflexivity. rewrite IH. reflexivity.
Qed.

Lemma abs_but_last_lookup (w : list float) (i : nat) (x : float) :
  w !! i = Some x ->
  abs_but_last w !! i = Some (if i + 1 =? List.length w then x else Float.abs x).
Proof.
  revert i. induction w as [|y [|z w] IH]; intros i H.
  - discriminate.
  - destruct i; cbn in *; [assumption | discriminate].
  - destruct i as [|i].
    + cbn in *. congruence.
    + change (abs_but_last (z :: w) !! i =
              Some (if S i + 1 =? List.length (y :: z :: w) then x else Float.abs x)).
      change ((z :: w) !! i = Some x) in H. rewrite (IH i H).
      change (List.length (y :: z :: w)) with (S (List.length (z :: w))).
      replace (S i + 1 =? S (List.length (z :: w))) with (i + 1 =? List.length (z :: w));
        [reflexivity|].
      destruct (Nat.eqb_spec (i + 1) (List.length (z :: w))),
               (Nat.eqb_spec (S i + 1) (S (List.length (z :: w)))); try reflexivity; lia.
Qed.

(** What the slice assignment of [set_weights] leaves in the vector. *)
Lemma assign_abs (w : list float) :
  assign_slice_to w (-1) (map Float.abs (slice_to w (-1))) = abs_but_last w.
Proof.
  unfold assign_slice_to, slice_to, slice_bound.
  induction w as [|x [|y w] IH]; [reflexivity | reflexivity |].
  change (abs_but_last (x :: y :: w)) with (Float.abs x :: abs_but_last (y :: w)).
  rewrite <- IH. clear IH.
  set (len := List.length (y :: w)).
  change (List.length (x :: y :: w)) with (S len).
  assert (Hlen : 0 < len) by (subst len; cbn; lia).
  replace (-1 <? 0)%Z with true by reflexivity.
  destruct (Z.ltb_spec (-1 + Z.of_nat (S len)) 0); [lia|].
  destruct (Z.ltb_spec (-1 + Z.of_nat len) 0); [lia|].
  replace (Z.to_nat (-1 + Z.of_nat (S len)) `min` S len) with (S (len - 1)) by lia.
  replace (Z.to_nat (-1 + Z.of_nat len) `min` len) with (len - 1) by lia.
  reflexivity.
Qed.

Lemma set_weights_match (n : t) (input_weights : list float) :
  List.length input_weights = List.length (_weights n) ->
  set_weights input_weights n =
    (Ok tt, set__weights (abs_but_last input_weights) n, []).
Proof.
  intros H. unfold set_weights. run. cbn.
  destruct (Nat.eqb_spec (List.length input_weights) (List.length (_weights n))); [|lia].
  cbn. rewrite assign_abs. reflexivity.
Qed.

Lemma set_weights_mismatch (n : t) (input_weights : list float) :
  List.length input_weights <> List.length (_weights n) ->
  set_weights input_weights n = (Ok tt, n, [WeightMismatch]).
Proof.
  intros H. unfold set_weights. run. cbn.
  destruct (Nat.eqb_spec (List.length input_weights) (List.length (_weights n))); [lia|].
  reflexivity.
Qed.

Lemma set_weights_returns (n : t) (input_weights : list float) :
  returned (set_weights input_weights n) = Ok tt.
Proof.
  destruct (decide (List.length input_weights = List.length (_weights n))) as [He|Hne].
  - rewrite set_weights_match by assumption. reflexivity.
  - rewrite set_weights_mismatch by assumption. reflexivity.
Qed.

Lemma node_wf_set_weights (n : t) (input_weights : list float) :
  node_wf n -> node_wf (after (set_weights input_weights n)).
Proof.
  intros H.
  destruct (decide (List.length input_weights = List.length (_weights n))) as [He|Hne].
  - rewrite set_weights_match by assumption. exact H.
  - rewrite set_weights_mismatch by assumption. exact H.
Qed.

(** The invariant holds of every neuron that a program can hold. *)
Lemma reachable_wf (n : t) : reachable n -> node_wf n.
Proof.
  induction 1 as [size g | n inputs _ IH | n w _ IH].
  - apply node_wf_init.
  - apply node_wf_compute. assumption.
  - apply node_wf_set_weights. assumption.
Qed.

End NodeFacts.

(** ** Input of the wrong width *)

(** C1, as amended: when the input length plus one differs from the
    number of weights, [compute] raises nothing, prints one diagnostic and
    returns 0.0 together with the level after the decay step, which has
    already been applied and is stored in the neuron; that level is the old
    one when the neuron is at rest or at level zero.  The weights, the
    firing history and the levels log are untouched. *)
Theorem width_mismatch_returns_decayed_level (n : SpikyNode.t) (inputs : list float) :
  length inputs + 1 <> length (SpikyNode._weights n) ->
  returned (SpikyNode.compute inputs n) = Ok (Float.zero, decayed (SpikyNode.level n)) /\
  printed (SpikyNode.compute inputs n) =
    [InputMismatch (length inputs) (length (SpikyNode._weights n)) (SpikyNode._weights n)] /\
  SpikyNode.level (after (SpikyNode.compute inputs n)) = decayed (SpikyNode.level n) /\
  SpikyNode.firelog (after (SpikyNode.compute inputs n)) = SpikyNode.firelog n /\
  SpikyNode.levels_log (after (SpikyNode.compute inputs n)) = SpikyNode.levels_log n /\
  SpikyNode._weights (after (SpikyNode.compute inputs n)) = SpikyNode._weights n /\
  (SpikyNode.level n = Float.neg_inf \/ Float.is_zero (SpikyNode.level n) = true ->
   decayed (SpikyNode.level n) = SpikyNode.level n).
Proof.
  intros H. rewrite (compute_mismatch n inputs H). unfold returned, printed, after; cbn.
  repeat split.
  intros [-> | Hz].
  - apply decayed_neg_inf.
  - destruct (SpikyNode.level n) as [[]| | |]; try discriminate; reflexivity.
Qed.

Lemma width_mismatch_witness :
  returned (SpikyNode.compute [] charged_node)
    = Ok (Float.zero, decayed (SpikyNode.level charged_node)) /\
  SpikyNode.firelog (after (SpikyNode.compute [] charged_node))
    = SpikyNode.firelog charged_node.
Proof.
  pose proof (width_mismatch_returns_decayed_level charged_node []) as H.
  destruct H as (Hr & _ & _ & Hf & _).
  - cbn. lia.
  - split; [exact Hr | exact Hf].
Defined.

(** The level of a charged neuron does not survive a call with an input
    of the wrong width: 1.0 becomes 0.9. *)
Lemma width_mismatch_changes_level :
  length ([] : list float) + 1 <> length (SpikyNode._weights charged_node) /\
  returned (SpikyNode.compute [] charged_node) = Ok (Float.zero, Float.decimal 9 10) /\
  SpikyNode.level (after (SpikyNode.compute [] charged_node)) = Float.decimal 9 10 /\
  Float.eqb (Float.decimal 9 10) (SpikyNode.level charged_node) = false /\
  returned (SpikyNode.compute [] charged_node)
    <> Ok (Float.zero, SpikyNode.level charged_node).
Proof.
  split; [cbn; lia|]. vm_compute. repeat split. discriminate.
Qed.

(** ** Firing *)

(** C6: when [compute] returns the firing output 1.0, the level of the
    neuron is the resting sentinel afterwards and the newest entry of its
    firing history is 1. *)
Theorem firing_resets_level (n : SpikyNode.t) (inputs : list float) (lvl : float) :
  RingBuffer.wf (SpikyNode.firelog n) ->
  returned (SpikyNode.compute inputs n) = Ok (Float.one, lvl) ->
  lvl = Float.neg_inf /\
  SpikyNode.level (after (SpikyNode.compute inputs n)) = Float.neg_inf /\
  last (history (after (SpikyNode.compute inputs n))) = Some 1%Z.
Proof.
  intros Hwf Hret.
  destruct (decide (length inputs + 1 = length (SpikyNode._weights n))) as [He|Hne].
  - destruct (last_is_Some (SpikyNode._weights n)) as [b Hb]; [lia|].
    rewrite (compute_match n inputs b He Hb) in *.
    destruct (Float.geb _ b); unfold returned, after, history in *; cbn in *.
    + split; [congruence|]. split; [reflexivity|].
      apply last_get_add. assumption.
    + exfalso. apply one_not_zero. congruence.
  - rewrite (compute_mismatch n inputs Hne) in Hret. unfold returned in Hret; cbn in Hret.
    exfalso. apply one_not_zero. congruence.
Qed.

Lemma firing_resets_level_witness :
  SpikyNode.level
    (after (SpikyNode.compute [Float.of_int 1; Float.of_int 1] resting_node))
    = Float.neg_inf /\
  last (history (after (SpikyNode.compute [Float.of_int 1; Float.of_int 1] resting_node)))
    = Some 1%Z.
Proof.
  refine (proj2 (firing_resets_level resting_node [Float.of_int 1; Float.of_int 1]
                   Float.neg_inf _ _)).
  - apply wf_init. unfold MAX_FIRELOG_SIZE. lia.
  - vm_compute. reflexivity.
Defined.

(** ** Assigning the weights of a neuron *)

(** C8: [set_weights] with a vector as long as the current one replaces
    the weights by that vector, every entry but the last (the bias) turned
    into its absolute value; with a vector of another length it prints a
    diagnostic and changes nothing. *)
Theorem node_set_weights (n : SpikyNode.t) (vec : list float) :
  (length vec = length (SpikyNode._weights n) ->
   SpikyNode.set_weights vec n = (Ok tt, SpikyNode.set__weights (abs_but_last vec) n, []) /\
   length (SpikyNode._weights (after (SpikyNode.set_weights vec n))) = length vec /\
   forall (i : nat) (x : float), vec !! i = Some x ->
     SpikyNode._weights (after (SpikyNode.set_weights vec n)) !! i =
       Some (if i + 1 =? length vec then x else Float.abs x)) /\
  (length vec <> length (SpikyNode._weights n) ->
   SpikyNode.set_weights vec n = (Ok tt, n, [WeightMismatch])).
Proof.
  split; intros H.
  - rewrite (set_weights_match n vec H). unfold after; cbn.
    split; [reflexivity|]. split; [apply abs_but_last_length|].
    intros i x Hx. apply abs_but_last_lookup. assumption.
  - apply set_weights_mismatch. assumption.
Qed.

Lemma node_set_weights_witness :
  SpikyNode._weights
    (after (SpikyNode.set_weights [Float.decimal (-3) 10; Float.decimal (-7) 10] charged_node))
    = [Float.decimal 3 10; Float.decimal (-7) 10] /\
  SpikyNode.set_weights [Float.decimal (-3) 10] charged_node
    = (Ok tt, charged_node, [WeightMismatch]).
Proof.
  split.
  - destruct (node_set_weights charged_node [Float.decimal (-3) 10; Float.decimal (-7) 10])
      as [Hsame _].
    destruct Hsame as (-> & _ & _); [reflexivity|]. vm_compute. reflexivity.
  - destruct (node_set_weights charged_node [Float.decimal (-3) 10]) as [_ Hdiff].
    apply Hdiff. cbn. lia.
Defined.

(** ** Duty cycle with a window of zero *)

(** C10: on a neuron with some firing history, [duty_cycle(0)] raises
    ZeroDivisionError: 0 is not replaced by the history length, the slice
    [[-0:]] is the whole history, and its sum is divided by 0. *)
Theorem duty_cycle_zero_window_raises (n : SpikyNode.t) :
  RingBuffer.length (SpikyNode.firelog n) <> 0 ->
  SpikyNode.duty_cycle (Some 0%Z) n = (Raise ZeroDivisionError, n, []) /\
  (0 >? Z.of_nat (RingBuffer.length (SpikyNode.firelog n)))%Z = false /\
  slice_from (history n) (- 0) = history n /\
  int_truediv (sum_int (history n)) 0 = Raise ZeroDivisionError.
Proof.
  intros H. unfold SpikyNode.duty_cycle. run.
  destruct (Nat.eqb_spec (RingBuffer.length (SpikyNode.firelog n)) 0); [contradiction|].
  assert (Hgt : (0 >? Z.of_nat (RingBuffer.length (SpikyNode.firelog n)))%Z = false).
  { rewrite Z.gtb_ltb. apply Z.ltb_ge. lia. }
  rewrite Hgt. repeat split.
Qed.

Lemma duty_cycle_zero_window_witness :
  returned (SpikyNode.duty_cycle (Some 0%Z) short_history_node) = Raise ZeroDivisionError.
Proof.
  destruct (duty_cycle_zero_window_raises short_history_node) as [-> _].
  - cbn. lia.
  - reflexivity.
Defined.

(** ** The layer *)

Section LayerFacts.

Import SpikyLayer.

Lemma slice_bound_nat (len a : nat) : slice_bound len (Z.of_nat a) = Nat.min a len.
Proof.
  unfold slice_bound.
  replace (Z.of_nat a <? 0)%Z with false by (symmetry; apply Z.ltb_ge; lia).
  cbv zeta.
  replace (Z.of_nat a <? 0)%Z with false by (symmetry; apply Z.ltb_ge; lia).
  rewrite Nat2Z.id. reflexivity.
Qed.

(** A slice between two natural bounds. *)
Lemma slice_nat {A} (l : list A) (a k : nat) :
  slice l (Z.of_nat a) (Z.of_nat (a + k)) = take k (drop a l).
Proof.
  unfold slice. rewrite !slice_bound_nat.
  destruct (Nat.le_gt_cases a (length l)) as [Hle|Hgt].
  - rewrite (Nat.min_l a) by assumption.
    destruct (Nat.le_gt_cases (a + k) (length l)).
    + rewrite Nat.min_l by assumption.
      replace (a + k - a) with k by lia. reflexivity.
    + rewrite Nat.min_r by lia.
      rewrite (take_ge _ k) by (rewrite length_drop; lia).
      apply take_ge. rewrite length_drop. lia.
  - rewrite !drop_ge by lia. rewrite !take_nil. reflexivity.
Qed.

Lemma set_weights_loop_handed (flat : list float) (k : nat) (todo : list SpikyNode.t) :
  forall idx : nat,
    returned (set_weights_loop flat k idx todo) = Ok tt /\
    after (set_weights_loop flat k idx todo) = handed k flat idx todo.
Proof.
  induction todo as [|node todo IH]; intros idx; [split; reflexivity|].
  cbn [set_weights_loop]. rewrite slice_nat. fold (chunk k flat idx).
  pose proof (set_weights_returns node (chunk k flat idx)) as Hr.
  destruct (SpikyNode.set_weights (chunk k flat idx) node) as [[r node'] out] eqn:E.
  unfold returned in Hr; cbn in Hr. subst r.
  destruct (IH (S idx)) as [IHr IHa].
  destruct (set_weights_loop flat k (S idx) todo) as [[r' todo''] out'].
  unfold returned, after in *; cbn in *. split; [assumption|].
  unfold handed. cbn. rewrite Nat.add_0_r, E. cbn. f_equal.
  rewrite IHa. unfold handed. apply imap_ext. intros j x _. cbn.
  replace (idx + S j) with (S (idx + j)) by lia. reflexivity.
Qed.

(** [set_weights] on a layer raises nothing. *)
Lemma layer_set_weights_returns (flat : list float) (l : t) :
  returned (set_weights flat l) = Ok tt.
Proof.
  unfold set_weights. run. destruct (nodes l) as [|node ns] eqn:E; [reflexivity|].
  cbn. rewrite E.
  pose proof (set_weights_loop_handed flat (length flat / length (node :: ns)) (node :: ns) 0)
    as [Hr _].
  destruct (set_weights_loop _ _ 0 (node :: ns)) as [[r ns'] out].
  unfold returned in Hr; cbn in *. subst. reflexivity.
Qed.

Lemma layer_set_weights_after (flat : list float) (l : t) :
  nodes (after (set_weights flat l)) =
    handed (length flat / length (nodes l)) flat 0 (nodes l).
Proof.
  unfold set_weights. run. destruct (nodes l) as [|node ns] eqn:E; [cbn; rewrite E; reflexivity|].
  cbn. rewrite E.
  pose proof (set_weights_loop_handed flat (length flat / length (node :: ns)) (node :: ns) 0)
    as [_ Ha].
  destruct (set_weights_loop _ _ 0 (node :: ns)) as [[r ns'] out].
  unfold after in Ha; cbn in *. subst. destruct r; reflexivity.
Qed.

Lemma chunk_length (flat : list float) (n i : nat) :
  i < n -> length (chunk (length flat / n) flat i) = length flat / n.
Proof.
  intros Hi. unfold chunk. rewrite length_take, length_drop.
  pose proof (Nat.Div0.mul_div_le (length flat) n) as Hle.
  assert (S i * (length flat / n) <= n * (length flat / n)) by (apply Nat.mul_le_mono_r; lia).
  lia.
Qed.

Lemma chunk_lookup (flat : list float) (k i j : nat) :
  j < k -> chunk k flat i !! j = flat !! (i * k + j).
Proof.
  intros Hj. unfold chunk. rewrite lookup_take_lt by assumption. apply lookup_drop.
Qed.

Lemma set_weights_loop_printed (flat : list float) (k : nat) (todo : list SpikyNode.t) :
  forall idx : nat,
    printed (SpikyLayer.set_weights_loop flat k idx todo) =
      concat (imap (fun j node => printed (SpikyNode.set_weights (chunk k flat (idx + j)) node))
                   todo).
Proof.
  induction todo as [|node todo IH]; intros idx; [reflexivity|].
  cbn [SpikyLayer.set_weights_loop]. rewrite slice_nat. fold (chunk k flat idx).
  pose proof (set_weights_returns node (chunk k flat idx)) as Hr.
  destruct (SpikyNode.set_weights (chunk k flat idx) node) as [[r node'] out] eqn:E.
  unfold returned in Hr; cbn in Hr. subst r.
  specialize (IH (S idx)).
  destruct (SpikyLayer.set_weights_loop flat k (S idx) todo) as [[r' todo''] out'].
  unfold printed in *; cbn in *. rewrite Nat.add_0_r, E. cbn. f_equal.
  rewrite IH. f_equal. apply imap_ext. intros j x _. cbn.
  replace (idx + S j) with (S (idx + j)) by lia. reflexivity.
Qed.

Lemma layer_set_weights_printed (flat : list float) (l : SpikyLayer.t) :
  printed (SpikyLayer.set_weights flat l) =
    concat (imap (fun j node =>
                    printed (SpikyNode.set_weights
                               (chunk (length flat / length (SpikyLayer.nodes l)) flat j) node))
                 (SpikyLayer.nodes l)).
Proof.
  unfold SpikyLayer.set_weights. run.
  destruct (SpikyLayer.nodes l) as [|node ns] eqn:E; [reflexivity|].
  cbn. rewrite E.
  pose proof (set_weights_loop_printed flat (length flat / length (node :: ns)) (node :: ns) 0)
    as Hp.
  destruct (SpikyLayer.set_weights_loop _ _ 0 (node :: ns)) as [[r ns'] out].
  unfold printed in Hp; cbn in *. subst. destruct r; cbn; rewrite ?app_nil_r; reflexivity.
Qed.

End LayerFacts.

(** ** Distributing a flat vector over a layer *)

Lemma handed_lookup (k : nat) (flat : list float) (ns : list SpikyNode.t)
    (i : nat) (node : SpikyNode.t) :
  ns !! i = Some node ->
  handed k flat 0 ns !! i = Some (after (SpikyNode.set_weights (chunk k flat i) node)).
Proof.
  intros H. unfold handed. rewrite list_lookup_imap, H. reflexivity.
Qed.

(** C3, as amended: on a layer of [n > 0] neurons and a flat vector of
    length [m], [set_weights] raises nothing and hands neuron [i] the
    chunk of exactly [m / n] elements that starts at position
    [i * (m / n)]; the chunks are contiguous and disjoint, and the last
    [m mod n] elements of the vector belong to none.  The neuron adopts
    its chunk, all entries but the last made absolute, when [m / n] is the
    length of its weight vector, and keeps its weights otherwise.  What
    is printed is one diagnostic for each neuron that keeps its weights,
    in neuron order, and nothing else: the dropped elements are not
    reported.  On a layer without neurons nothing happens and nothing is
    printed. *)
Theorem layer_set_weights_chunks (l : SpikyLayer.t) (flat : list float) :
  (SpikyLayer.nodes l = [] -> SpikyLayer.set_weights flat l = (Ok tt, l, [])) /\
  (0 < length (SpikyLayer.nodes l) ->
   let n := length (SpikyLayer.nodes l) in
   let k := length flat / n in
   returned (SpikyLayer.set_weights flat l) = Ok tt /\
   length (SpikyLayer.nodes (after (SpikyLayer.set_weights flat l))) = n /\
   n * k + length flat `mod` n = length flat /\
   printed (SpikyLayer.set_weights flat l) =
     concat (map (fun node => if k =? length (SpikyNode._weights node)
                              then [] else [WeightMismatch])
                 (SpikyLayer.nodes l)) /\
   forall (i : nat) (node : SpikyNode.t),
     SpikyLayer.nodes l !! i = Some node ->
     length (chunk k flat i) = k /\
     (forall j : nat, j < k -> chunk k flat i !! j = flat !! (i * k + j)) /\
     SpikyLayer.nodes (after (SpikyLayer.set_weights flat l)) !! i =
       Some (SpikyNode.set__weights
               (if k =? length (SpikyNode._weights node)
                then abs_but_last (chunk k flat i)
                else SpikyNode._weights node)
               node)).
Proof.
  split.
  - intros H. unfold SpikyLayer.set_weights. run. rewrite H. reflexivity.
  - intros Hn n k. split; [apply layer_set_weights_returns|].
    rewrite layer_set_weights_after, layer_set_weights_printed. fold n k.
    split; [|split; [|split]].
    + unfold handed. apply length_imap.
    + symmetry. apply Nat.div_mod_eq.
    + f_equal.
      rewrite <- (imap_const (fun node => if k =? length (SpikyNode._weights node)
                                          then [] else [WeightMismatch])).
      apply imap_ext. intros i node Hi. cbn.
      assert (Hlt : i < n) by (apply lookup_lt_Some in Hi; assumption).
      pose proof (chunk_length flat n i Hlt) as Hlen. fold k in Hlen.
      destruct (Nat.eqb_spec k (length (SpikyNode._weights node))) as [He|Hne].
      * rewrite set_weights_match by lia. reflexivity.
      * rewrite set_weights_mismatch by lia. reflexivity.
    + intros i node Hi.
      assert (Hlt : i < n) by (apply lookup_lt_Some in Hi; assumption).
      pose proof (chunk_length flat n i Hlt) as Hlen. fold k in Hlen.
      split; [assumption|]. split; [intros j Hj; apply chunk_lookup; assumption|].
      rewrite (handed_lookup _ _ _ _ _ Hi). f_equal.
      destruct (Nat.eqb_spec k (length (SpikyNode._weights node))) as [He|Hne].
      * rewrite set_weights_match by lia. reflexivity.
      * rewrite set_weights_mismatch by lia. destruct node; reflexivity.
Qed.

Lemma layer_set_weights_chunks_witness :
  SpikyNode._weights <$>
    SpikyLayer.nodes
      (after (SpikyLayer.set_weights
                [Float.decimal (-3) 10; Float.of_int 2; Float.decimal (-4) 10;
                 Float.of_int (-1); Float.of_int 7]
                two_node_layer))
  = [[Float.decimal 3 10; Float.of_int 2]; [Float.decimal 4 10; Float.of_int (-1)]].
Proof.
  pose (flat := [Float.decimal (-3) 10; Float.of_int 2; Float.decimal (-4) 10;
                 Float.of_int (-1); Float.of_int 7]).
  destruct (layer_set_weights_chunks two_node_layer flat) as [_ H].
  destruct H as (_ & Hlen & _ & _ & Hi); [cbn; lia|].
  destruct (Hi 0 charged_node eq_refl) as (_ & _ & H0).
  destruct (Hi 1 negative_bias_node eq_refl) as (_ & _ & H1).
  fold flat.
  destruct (SpikyLayer.nodes (after (SpikyLayer.set_weights flat two_node_layer)))
    as [|a [|b [|c r]]]; try discriminate Hlen.
  cbn in H0, H1. injection H0 as ->. injection H1 as ->.
  vm_compute. reflexivity.
Defined.

(** A neuron whose weight vector is not [m / n] long keeps its weights,
    and one that adopts its chunk stores absolute values: in neither case
    does it hold the chunk itself. *)
Lemma layer_set_weights_not_the_chunk :
  (0 < length (SpikyLayer.nodes one_node_layer) /\
   (SpikyNode._weights <$>
      SpikyLayer.nodes
        (after (SpikyLayer.set_weights
                  [Float.of_int 3; Float.of_int 4; Float.of_int 5] one_node_layer)))
   = [[Float.of_int 1; Float.decimal 5 10]] /\
   length [Float.of_int 1; Float.decimal 5 10]
     <> length [Float.of_int 3; Float.of_int 4; Float.of_int 5]
        / length (SpikyLayer.nodes one_node_layer)) /\
  ((SpikyNode._weights <$>
      SpikyLayer.nodes
        (after (SpikyLayer.set_weights [Float.of_int (-3); Float.of_int 4] one_node_layer)))
   = [[Float.of_int 3; Float.of_int 4]] /\
   [Float.of_int 3; Float.of_int 4]
     <> chunk 2 [Float.of_int (-3); Float.of_int 4] 0).
Proof.
  split; split.
  - cbn. lia.
  - split; [vm_compute; reflexivity | cbn; lia].
  - vm_compute. reflexivity.
  - vm_compute. discriminate.
Qed.

(** ** Assigning a genome to the network *)

(** C9: when the genome lacks the key of the hidden layer or that of the
    output layer, [set_weights] on the network ends with the KeyError of
    the missing key, which reaches the caller. *)
Theorem net_set_weights_missing_key (net : SpikyNet.t) (genome : gmap string (list float)) :
  genome !! "hidden_layer" = None \/ genome !! "output_layer" = None ->
  (exists key : string,
     returned (SpikyNet.set_weights genome net) = Raise (KeyError key) /\
     (key = "hidden_layer" \/ key = "output_layer") /\
     genome !! key = None) /\
  (genome !! "hidden_layer" = None ->
   SpikyNet.set_weights genome net = (Raise (KeyError "hidden_layer"), net, [])) /\
  (forall hidden : list float,
     genome !! "hidden_layer" = Some hidden ->
     returned (SpikyNet.set_weights genome net) = Raise (KeyError "output_layer") /\
     SpikyNet.hidden_layer (after (SpikyNet.set_weights genome net)) =
       after (SpikyLayer.set_weights hidden (SpikyNet.hidden_layer net)) /\
     SpikyNet.output_layer (after (SpikyNet.set_weights genome net)) =
       SpikyNet.output_layer net).
Proof.
  intros Hmiss.
  assert (Hh : genome !! "hidden_layer" = None ->
               SpikyNet.set_weights genome net = (Raise (KeyError "hidden_layer"), net, [])).
  { intros H. unfold SpikyNet.set_weights, SpikyNet.getitem. run. rewrite H. reflexivity. }
  assert (Ho : forall hidden, genome !! "hidden_layer" = Some hidden ->
               genome !! "output_layer" = None ->
               returned (SpikyNet.set_weights genome net) = Raise (KeyError "output_layer") /\
               SpikyNet.hidden_layer (after (SpikyNet.set_weights genome net)) =
                 after (SpikyLayer.set_weights hidden (SpikyNet.hidden_layer net)) /\
               SpikyNet.output_layer (after (SpikyNet.set_weights genome net)) =
                 SpikyNet.output_layer net).
  { intros hidden H1 H2. unfold SpikyNet.set_weights, SpikyNet.getitem. run.
    rewrite H1, H2.
    pose proof (layer_set_weights_returns hidden (SpikyNet.hidden_layer net)) as Hr.
    unfold returned in Hr.
    destruct (SpikyLayer.set_weights hidden (SpikyNet.hidden_layer net)) as [[r h'] out].
    cbn in *. subst r. cbn. repeat split. }
  split; [|split; [exact Hh|]].
  - destruct (genome !! "hidden_layer") as [hidden|] eqn:E.
    + destruct Hmiss as [?|Hmiss]; [discriminate|].
      exists "output_layer". destruct (Ho hidden eq_refl Hmiss) as (Hr & _). auto.
    + exists "hidden_layer". rewrite (Hh eq_refl). auto.
  - intros hidden E. destruct Hmiss as [Hmiss|Hmiss]; [congruence|].
    apply Ho; assumption.
Qed.

Lemma net_set_weights_missing_key_witness :
  exists key : string,
    returned (SpikyNet.set_weights
                {[ "hidden_layer" := [Float.of_int 1; Float.of_int 1; Float.decimal 5 10] ]}
                (SpikyNet.__init__ 2 1 1 constant_source).1)
    = Raise (KeyError key).
Proof.
  destruct (net_set_weights_missing_key (SpikyNet.__init__ 2 1 1 constant_source).1
              {[ "hidden_layer" := [Float.of_int 1; Float.of_int 1; Float.decimal 5 10] ]})
    as [(key & Hr & _) _].
  - right. reflexivity.
  - exists key. exact Hr.
Defined.

(** ** The end-to-end scenario *)

(** C4: a network with two inputs, one hidden neuron with weights
    [1, 1, 0.5] and one output neuron with weights [1, 0.5], fed [1, 1] at
    its first step.  The hidden neuron sums to 2, reaches level 2 from
    rest, fires and is back at rest; the output neuron receives [1.0],
    sums to 1.0 and fires; the network returns [1.0] and the resting
    sentinel, prints nothing, and is left with both neurons at rest, a
    spike in each firing history and the levels 2 and 1.0 in the two
    levels logs. *)
Theorem end_to_end_scenario (g : RandomState) :
  scenario_net g =
    {| SpikyNet.hidden_layer := {| SpikyLayer.nodes := [resting_node] |};
       SpikyNet.output_layer := {| SpikyLayer.nodes := [scenario_output_node] |} |} /\
  SpikyNode.weighted_sum [Float.of_int 1; Float.of_int 1] (SpikyNode._weights resting_node)
    = Ok (Float.of_int 2) /\
  charged resting_node [Float.of_int 1; Float.of_int 1] = Float.of_int 2 /\
  Float.geb (Float.of_int 2) (Float.decimal 5 10) = true /\
  returned (SpikyNode.compute [Float.of_int 1; Float.of_int 1] resting_node)
    = Ok (Float.one, Float.neg_inf) /\
  SpikyNode.level (after (SpikyNode.compute [Float.of_int 1; Float.of_int 1] resting_node))
    = Float.neg_inf /\
  SpikyNode.levels_log (after (SpikyNode.compute [Float.of_int 1; Float.of_int 1] resting_node))
    = [Float.of_int 2] /\
  history (after (SpikyNode.compute [Float.of_int 1; Float.of_int 1] resting_node)) = [1%Z] /\
  returned (SpikyLayer.compute [Float.of_int 1; Float.of_int 1]
              (SpikyNet.hidden_layer (scenario_net g)))
    = Ok ([Float.one], [Float.neg_inf]) /\
  SpikyNode.weighted_sum [Float.one] (SpikyNode._weights scenario_output_node)
    = Ok Float.one /\
  charged scenario_output_node [Float.one] = Float.one /\
  Float.geb Float.one (Float.decimal 5 10) = true /\
  returned (SpikyNode.compute [Float.one] scenario_output_node)
    = Ok (Float.one, Float.neg_inf) /\
  returned (SpikyNet.compute [Float.of_int 1; Float.of_int 1] 100 (scenario_net g))
    = Ok ([Float.one], [Float.neg_inf]) /\
  SpikyNode.compute [Float.of_int 1; Float.of_int 1] resting_node
    = (Ok (Float.one, Float.neg_inf), scenario_hidden_after, []) /\
  SpikyNode.compute [Float.one] scenario_output_node
    = (Ok (Float.one, Float.neg_inf), scenario_output_after, []) /\
  SpikyLayer.compute [Float.of_int 1; Float.of_int 1] (SpikyNet.hidden_layer (scenario_net g))
    = (Ok ([Float.one], [Float.neg_inf]),
       {| SpikyLayer.nodes := [scenario_hidden_after] |}, []) /\
  SpikyNet.compute [Float.of_int 1; Float.of_int 1] 100 (scenario_net g)
    = (Ok ([Float.one], [Float.neg_inf]),
       {| SpikyNet.hidden_layer := {| SpikyLayer.nodes := [scenario_hidden_after] |};
          SpikyNet.output_layer := {| SpikyLayer.nodes := [scenario_output_after] |} |},
       []) /\
  history scenario_hidden_after = [1%Z] /\
  history scenario_output_after = [1%Z].
Proof.
  assert (Hnet : scenario_net g =
    {| SpikyNet.hidden_layer := {| SpikyLayer.nodes := [resting_node] |};
       SpikyNet.output_layer := {| SpikyLayer.nodes := [scenario_output_node] |} |}).
  { destruct g as [s p]. vm_compute. reflexivity. }
  split; [exact Hnet|]. rewrite Hnet. vm_compute. repeat split.
Qed.

(** ** A neuron at rest fed zeros *)

Lemma foldl_zero_products (inputs weights : list float) (acc : float) :
  Forall (fun x => Float.is_zero x = true) inputs ->
  acc = Float.zero \/ acc = S754_nan ->
  foldl Float.add acc (zip_with Float.mul inputs weights) = Float.zero \/
  foldl Float.add acc (zip_with Float.mul inputs weights) = S754_nan.
Proof.
  intros Hz. revert weights acc.
  induction Hz as [|x inputs Hx _ IH]; intros weights acc Hacc; [exact Hacc|].
  destruct weights as [|w weights]; [exact Hacc|].
  cbn [zip_with foldl]. apply IH.
  destruct x as [sx| | |]; try discriminate Hx.
  destruct Hacc as [-> | ->]; [|right; reflexivity].
  destruct w as [sw|sw| |sw mw ew]; destruct sx; try destruct sw;
    (left; reflexivity) || (right; reflexivity).
Qed.

(** The weighted sum of zeros is 0.0, or NaN when a weight is not a real
    number. *)
Lemma dot_zero_inputs (inputs weights : list float) :
  Forall (fun x => Float.is_zero x = true) inputs ->
  dot inputs weights = Float.zero \/ dot inputs weights = S754_nan.
Proof.
  intros H. apply foldl_zero_products; [assumption | left; reflexivity].
Qed.

Lemma foldl_zero_products_finite (inputs weights : list float) :
  Forall (fun x => Float.is_zero x = true) inputs ->
  Forall (fun w => Float.is_finite w = true) weights ->
  foldl Float.add Float.zero (zip_with Float.mul inputs weights) = Float.zero.
Proof.
  intros Hz. revert weights.
  induction Hz as [|x inputs Hx _ IH]; intros weights Hw; [reflexivity|].
  destruct Hw as [|w weights Hfin Hw]; [reflexivity|].
  cbn [zip_with foldl].
  replace (Float.add Float.zero (Float.mul x w)) with Float.zero; [apply IH; assumption|].
  destruct x as [sx| | |]; try discriminate Hx.
  destruct w as [sw|sw| |sw mw ew]; try discriminate Hfin;
    destruct sx, sw; reflexivity.
Qed.

(** With real weights the weighted sum of zeros is 0.0. *)
Lemma dot_zero_inputs_finite (inputs weights : list float) :
  Forall (fun x => Float.is_zero x = true) inputs ->
  Forall (fun w => Float.is_finite w = true) weights ->
  dot inputs weights = Float.zero.
Proof. apply foldl_zero_products_finite. Qed.

Lemma eqb_neg_inf : Float.eqb Float.neg_inf Float.neg_inf = true.
Proof. reflexivity. Qed.

Lemma zip_with_take_weights (inputs weights : list float) :
  zip_with Float.mul inputs (take (length inputs) weights) =
  zip_with Float.mul inputs weights.
Proof.
  revert weights. induction inputs as [|x inputs IH]; intros weights; [reflexivity|].
  destruct weights as [|w weights]; [reflexivity|]. cbn. rewrite IH. reflexivity.
Qed.

(** Only the synaptic weights, one per input, enter the weighted sum:
    when they are real numbers, the weighted sum of zeros is 0.0. *)
Lemma dot_zero_inputs_synaptic (inputs weights : list float) :
  Forall (fun x => Float.is_zero x = true) inputs ->
  Forall (fun w => Float.is_finite w = true) (take (length inputs) weights) ->
  dot inputs weights = Float.zero.
Proof.
  intros Hz Hfin. unfold dot. rewrite <- zip_with_take_weights.
  apply (dot_zero_inputs_finite _ _ Hz Hfin).
Qed.

(** C2, as amended: a neuron at rest that is fed zeros of the right width
    is at rest afterwards only if its bias is at most 0.  When its
    synaptic weights are finite, it charges to 0.0, and it fires and is at
    rest afterwards exactly when [0.0 >= bias]. *)
Theorem rest_after_zero_input (n : SpikyNode.t) (inputs : list float) (bias : float) :
  SpikyNode.level n = Float.neg_inf ->
  Forall (fun x => Float.is_zero x = true) inputs ->
  length inputs + 1 = length (SpikyNode._weights n) ->
  last (SpikyNode._weights n) = Some bias ->
  (SpikyNode.level (after (SpikyNode.compute inputs n)) = Float.neg_inf ->
   Float.geb Float.zero bias = true /\
   returned (SpikyNode.compute inputs n) = Ok (Float.one, Float.neg_inf)) /\
  (Forall (fun w => Float.is_finite w = true)
          (take (length inputs) (SpikyNode._weights n)) ->
   SpikyNode.levels_log (after (SpikyNode.compute inputs n))
     = SpikyNode.levels_log n ++ [Float.zero] /\
   (returned (SpikyNode.compute inputs n) = Ok (Float.one, Float.neg_inf)
    <-> Float.geb Float.zero bias = true) /\
   (SpikyNode.level (after (SpikyNode.compute inputs n)) = Float.neg_inf
    <-> Float.geb Float.zero bias = true)).
Proof.
  intros Hrest Hz Hlen Hbias.
  rewrite (compute_match n inputs bias Hlen Hbias).
  assert (Hc : charged n inputs = dot inputs (SpikyNode._weights n)).
  { unfold charged. rewrite Hrest, decayed_neg_inf, eqb_neg_inf. reflexivity. }
  rewrite Hc. split.
  - intros Hafter.
    destruct (dot_zero_inputs inputs (SpikyNode._weights n) Hz) as [Hd|Hd];
      rewrite Hd in *.
    + destruct (Float.geb Float.zero bias); [split; reflexivity|].
      unfold after in Hafter; cbn in Hafter. discriminate.
    + replace (Float.geb S754_nan bias) with false in *
        by (destruct bias as [[]|[]| |[]]; reflexivity).
      unfold after in Hafter; cbn in Hafter. discriminate.
  - intros Hfin. rewrite (dot_zero_inputs_synaptic _ _ Hz Hfin).
    destruct (Float.geb Float.zero bias); unfold returned, after; cbn.
    + repeat split.
    + split; [reflexivity|].
      split; split; intros H; try discriminate H;
        exfalso; apply one_not_zero; congruence.
Qed.

Lemma rest_after_zero_input_witness :
  Float.geb Float.zero (Float.decimal (-5) 10) = true.
Proof.
  destruct (rest_after_zero_input negative_bias_node [Float.zero]
              (Float.decimal (-5) 10)) as [Honly _].
  - reflexivity.
  - repeat constructor.
  - reflexivity.
  - vm_compute. reflexivity.
  - apply Honly. vm_compute. reflexivity.
Defined.

(** With bias -0.5 the neuron fires on zeros and is at rest afterwards,
    although its bias is not at least 0. *)
Lemma rest_kept_with_negative_bias :
  SpikyNode.level negative_bias_node = Float.neg_inf /\
  Forall (fun x => Float.is_zero x = true) [Float.zero] /\
  length [Float.zero] + 1 = length (SpikyNode._weights negative_bias_node) /\
  SpikyNode.get_bias negative_bias_node
    = (Ok (Float.decimal (-5) 10), negative_bias_node, []) /\
  SpikyNode.level (after (SpikyNode.compute [Float.zero] negative_bias_node))
    = Float.neg_inf /\
  Float.geb (Float.decimal (-5) 10) Float.zero = false.
Proof.
  split; [reflexivity|]. split; [repeat constructor|]. split; [reflexivity|].
  vm_compute. repeat split.
Qed.

(** Conversely, with real weights and a bias that is at most 0 the
    neuron fires and stays at rest. *)
Lemma rest_after_zero_input_fires (n : SpikyNode.t) (inputs : list float) (bias : float) :
  SpikyNode.level n = Float.neg_inf ->
  Forall (fun x => Float.is_zero x = true) inputs ->
  Forall (fun w => Float.is_finite w = true) (SpikyNode._weights n) ->
  length inputs + 1 = length (SpikyNode._weights n) ->
  last (SpikyNode._weights n) = Some bias ->
  Float.geb Float.zero bias = true ->
  returned (SpikyNode.compute inputs n) = Ok (Float.one, Float.neg_inf) /\
  SpikyNode.level (after (SpikyNode.compute inputs n)) = Float.neg_inf.
Proof.
  intros Hrest Hz Hfin Hlen Hbias Hle.
  rewrite (compute_match n inputs bias Hlen Hbias).
  unfold charged. rewrite Hrest, decayed_neg_inf, eqb_neg_inf.
  rewrite (dot_zero_inputs_finite _ _ Hz Hfin), Hle. split; reflexivity.
Qed.

(** ** Duty cycle *)

(** All the divisions that a duty cycle can perform on a history of at
    most [MAX_FIRELOG_SIZE] entries. *)
Lemma fractions_checked : table_ok fraction_ok MAX_FIRELOG_SIZE = true.
Proof. vm_compute. reflexivity. Qed.

Lemma forallb_table (f : Z -> Z -> bool) (bound : nat) :
  table_ok f bound = true ->
  forall a b : Z, (0 <= a <= b)%Z -> (0 < b <= Z.of_nat bound)%Z -> f a b = true.
Proof.
  intros H a b Ha Hb. unfold table_ok in H.
  rewrite forallb_forall in H.
  assert (Hin : In (Z.to_nat b - 1) (seq 0 bound)) by (apply in_seq; lia).
  specialize (H _ Hin). rewrite forallb_forall in H.
  assert (Hin' : In (Z.to_nat a) (seq 0 (S (S (Z.to_nat b - 1))))) by (apply in_seq; lia).
  specialize (H _ Hin').
  replace (Z.of_nat (S (Z.to_nat b - 1))) with b in H by lia.
  replace (Z.of_nat (Z.to_nat a)) with a in H by lia.
  exact H.
Qed.

Lemma fraction_checked (a b : Z) :
  (0 <= a <= b)%Z -> (0 < b <= Z.of_nat MAX_FIRELOG_SIZE)%Z ->
  int_truediv a b = Ok (quotient a b) /\
  rounds a b (quotient a b) = true /\
  Float.geb (quotient a b) Float.zero = true /\
  Float.geb Float.one (quotient a b) = true.
Proof.
  intros Ha Hb.
  pose proof (forallb_table fraction_ok MAX_FIRELOG_SIZE fractions_checked a b Ha Hb) as H.
  unfold fraction_ok in H.
  assert (Hq : forall q, int_truediv a b = Ok q -> q = quotient a b).
  { unfold int_truediv. destruct (b =? 0)%Z; [discriminate|].
    fold (quotient a b). destruct (quotient a b); intros q Hq; congruence. }
  destruct (int_truediv a b) as [q|] eqn:E; [|discriminate].
  rewrite (Hq q eq_refl) in *.
  apply andb_prop in H as [H H1]. apply andb_prop in H as [H H0]. auto.
Qed.

Lemma ones_bounds (l : list Z) : (0 <= ones l <= Z.of_nat (length l))%Z.
Proof.
  unfold ones. pose proof (length_filter (fun v => v = 1%Z) l). lia.
Qed.

Lemma foldl_add_ones (l : list Z) :
  Forall (fun v => v = 0%Z \/ v = 1%Z) l ->
  forall acc : Z, foldl Z.add acc l = (acc + ones l)%Z.
Proof.
  induction 1 as [|v l Hv _ IH]; intros acc.
  - unfold ones; cbn. lia.
  - cbn [foldl]. rewrite IH. unfold ones. rewrite filter_cons.
    destruct Hv as [-> | ->]; destruct (decide _) as [Hd|Hd]; cbn [length];
      try discriminate Hd; try (exfalso; apply Hd; reflexivity); lia.
Qed.

(** The sum of a firing history is its number of 1s. *)
Lemma sum_int_ones (l : list Z) :
  Forall (fun v => v = 0%Z \/ v = 1%Z) l -> sum_int l = ones l.
Proof. intros H. unfold sum_int. rewrite foldl_add_ones by assumption. lia. Qed.

(** [l[-w:]] is the last [w] entries, for a positive [w] within the
    length. *)
Lemma slice_from_last (l : list Z) (w : Z) :
  (0 < w <= Z.of_nat (length l))%Z ->
  slice_from l (- w) = last_entries (Z.to_nat w) l.
Proof.
  intros H. unfold slice_from, last_entries, slice_bound.
  replace (- w <? 0)%Z with true by (symmetry; apply Z.ltb_lt; lia).
  replace (- w + Z.of_nat (length l) <? 0)%Z with false by (symmetry; apply Z.ltb_ge; lia).
  f_equal. lia.
Qed.

Lemma history_length (n : SpikyNode.t) :
  length (history n) = RingBuffer.length (SpikyNode.firelog n).
Proof. apply length_get. Qed.

Lemma history_bits (n : SpikyNode.t) :
  node_wf n -> Forall (fun v => v = 0%Z \/ v = 1%Z) (history n).
Proof. intros (_ & _ & H). apply Forall_get. assumption. Qed.

Lemma history_short (n : SpikyNode.t) :
  node_wf n -> length (history n) <= MAX_FIRELOG_SIZE.
Proof.
  intros ((_ & Hle & _) & Hcap & _). rewrite history_length.
  unfold RingBuffer.length. lia.
Qed.

(** [duty_cycle] with a positive window within the history. *)
Lemma duty_cycle_within (n : SpikyNode.t) (w : Z) :
  node_wf n ->
  (0 < w <= Z.of_nat (length (history n)))%Z ->
  SpikyNode.duty_cycle (Some w) n =
    (Ok (quotient (ones (last_entries (Z.to_nat w) (history n))) w), n, []).
Proof.
  intros Hwf Hw. pose proof (history_short n Hwf) as Hshort.
  rewrite history_length in *.
  unfold SpikyNode.duty_cycle. run.
  destruct (Nat.eqb_spec (RingBuffer.length (SpikyNode.firelog n)) 0); [lia|].
  replace (w >? Z.of_nat (RingBuffer.length (SpikyNode.firelog n)))%Z with false
    by (symmetry; rewrite Z.gtb_ltb; apply Z.ltb_ge; lia).
  fold (history n).
  rewrite slice_from_last by (rewrite history_length; lia).
  assert (Hbits : Forall (fun v => v = 0%Z \/ v = 1%Z)
                    (last_entries (Z.to_nat w) (history n))).
  { apply Forall_drop, history_bits. assumption. }
  rewrite (sum_int_ones _ Hbits).
  pose proof (ones_bounds (last_entries (Z.to_nat w) (history n))) as Hb.
  assert (Hl : length (last_entries (Z.to_nat w) (history n)) = Z.to_nat w).
  { unfold last_entries. rewrite length_drop, history_length. lia. }
  destruct (fraction_checked (ones (last_entries (Z.to_nat w) (history n))) w) as [-> _];
    [lia | lia | reflexivity].
Qed.

Lemma last_entries_all (l : list Z) : last_entries (length l) l = l.
Proof. unfold last_entries. rewrite Nat.sub_diag. reflexivity. Qed.

(** [duty_cycle] with [None] or a window beyond the history. *)
Lemma duty_cycle_all (n : SpikyNode.t) (window : option Z) :
  node_wf n ->
  history n <> [] ->
  window = None \/
  (exists w : Z, window = Some w /\ (Z.of_nat (length (history n)) < w)%Z) ->
  SpikyNode.duty_cycle window n =
    (Ok (quotient (ones (history n)) (Z.of_nat (length (history n)))), n, []).
Proof.
  intros Hwf Hne Hwin.
  assert (Hlen : 0 < length (history n)) by (destruct (history n); [congruence | cbn; lia]).
  pose proof (duty_cycle_within n (Z.of_nat (length (history n))) Hwf) as Hall.
  rewrite Nat2Z.id, last_entries_all in Hall. rewrite <- Hall by lia.
  rewrite history_length in *.
  unfold SpikyNode.duty_cycle. run.
  destruct (Nat.eqb_spec (RingBuffer.length (SpikyNode.firelog n)) 0); [lia|].
  rewrite Z.gtb_ltb, Z.ltb_irrefl.
  destruct Hwin as [-> | (w & -> & Hw)]; [reflexivity|].
  replace (w >? Z.of_nat (RingBuffer.length (SpikyNode.firelog n)))%Z with true
    by (symmetry; rewrite Z.gtb_ltb; apply Z.ltb_lt; lia).
  reflexivity.
Qed.

Lemma duty_cycle_empty (n : SpikyNode.t) (window : option Z) :
  history n = [] -> SpikyNode.duty_cycle window n = (Ok Float.zero, n, []).
Proof.
  intros H. pose proof (history_length n) as Hl. rewrite H in Hl. cbn in Hl.
  unfold SpikyNode.duty_cycle. run. rewrite <- Hl. reflexivity.
Qed.

(** C7, as amended: on a neuron without history [duty_cycle] returns 0.0
    whatever the window.  Otherwise, for a positive window [w] within the
    history it returns the double nearest to [k / w], [k] being the number
    of 1s among the last [w] entries; for a window beyond the history, or
    [None], it returns the double nearest to the number of 1s in the whole
    history over its length.  A call that leaves the window out is a call
    with window 100. *)
Theorem duty_cycle_law (n : SpikyNode.t) :
  node_wf n ->
  (history n = [] ->
   forall arg : option (option Z),
     SpikyNode.call_duty_cycle arg n = (Ok Float.zero, n, [])) /\
  (forall w : Z,
     (0 < w <= Z.of_nat (length (history n)))%Z ->
     SpikyNode.duty_cycle (Some w) n =
       (Ok (quotient (ones (last_entries (Z.to_nat w) (history n))) w), n, []) /\
     rounds (ones (last_entries (Z.to_nat w) (history n))) w
       (quotient (ones (last_entries (Z.to_nat w) (history n))) w) = true) /\
  (history n <> [] ->
   forall window : option Z,
     window = None \/
     (exists w : Z, window = Some w /\ (Z.of_nat (length (history n)) < w)%Z) ->
     SpikyNode.duty_cycle window n =
       (Ok (quotient (ones (history n)) (Z.of_nat (length (history n)))), n, []) /\
     rounds (ones (history n)) (Z.of_nat (length (history n)))
       (quotient (ones (history n)) (Z.of_nat (length (history n)))) = true) /\
  SpikyNode.call_duty_cycle None n = SpikyNode.duty_cycle (Some 100%Z) n.
Proof.
  intros Hwf. pose proof (history_short n Hwf) as Hshort.
  split; [|split; [|split]].
  - intros H arg. apply duty_cycle_empty. assumption.
  - intros w Hw. split; [apply duty_cycle_within; assumption|].
    pose proof (ones_bounds (last_entries (Z.to_nat w) (history n))) as Hb.
    assert (Hl : length (last_entries (Z.to_nat w) (history n)) = Z.to_nat w).
    { unfold last_entries. rewrite length_drop. lia. }
    apply fraction_checked; lia.
  - intros Hne window Hwin. split; [apply duty_cycle_all; assumption|].
    pose proof (ones_bounds (history n)) as Hb.
    assert (Hlen : 0 < length (history n)) by (destruct (history n); [congruence | cbn; lia]).
    apply fraction_checked; lia.
  - reflexivity.
Qed.

Lemma short_history_node_wf : node_wf short_history_node.
Proof.
  unfold node_wf, RingBuffer.wf, short_history_node, node_with_history, MAX_FIRELOG_SIZE; cbn.
  split; [|split; [reflexivity | repeat (apply List.Forall_cons; [auto|]); apply List.Forall_nil]].
  split; [lia | split; [lia | split; [reflexivity | lia]]].
Qed.

Lemma duty_cycle_law_witness :
  SpikyNode.duty_cycle (Some 2%Z) short_history_node
    = (Ok (Float.of_int 1), short_history_node, []) /\
  SpikyNode.duty_cycle None short_history_node
    = (Ok (Float.decimal 75 100), short_history_node, []).
Proof.
  destruct (duty_cycle_law short_history_node short_history_node_wf)
    as (_ & Hwithin & Hall & _).
  split.
  - destruct (Hwithin 2%Z) as [-> _]; [split; [reflexivity | vm_compute; discriminate]|].
    vm_compute. reflexivity.
  - destruct (Hall ltac:(discriminate) None) as [-> _]; [left; reflexivity|].
    vm_compute. reflexivity.
Defined.

(** After 101 steps a call without window looks at the last 100 entries
    only: it misses the spike of the first step, which the whole history
    contains. *)
Lemma duty_cycle_default_window_is_100 :
  length (history long_history_node) = 101 /\
  ones (history long_history_node) = 1%Z /\
  returned (SpikyNode.call_duty_cycle None long_history_node) = Ok Float.zero /\
  quotient (ones (history long_history_node))
           (Z.of_nat (length (history long_history_node)))
    = Float.decimal 1 101 /\
  returned (SpikyNode.call_duty_cycle None long_history_node)
    <> Ok (quotient (ones (history long_history_node))
                    (Z.of_nat (length (history long_history_node)))).
Proof.
  vm_compute. repeat split. discriminate.
Qed.

(** ** Rounding in binary64 *)

Section Rounding.

Local Open Scope Z_scope.

Lemma digits2_pos_bounds (p : positive) :
  2 ^ (Z.pos (digits2_pos p) - 1) <= Z.pos p < 2 ^ Z.pos (digits2_pos p).
Proof.
  induction p as [p IH|p IH|]; cbn [digits2_pos].
  - rewrite Pos2Z.inj_succ.
    replace (Z.succ (Z.pos (digits2_pos p)) - 1) with (Z.succ (Z.pos (digits2_pos p) - 1)) by lia.
    rewrite !Z.pow_succ_r by lia. lia.
  - rewrite Pos2Z.inj_succ.
    replace (Z.succ (Z.pos (digits2_pos p)) - 1) with (Z.succ (Z.pos (digits2_pos p) - 1)) by lia.
    rewrite !Z.pow_succ_r by lia. lia.
  - cbn. lia.
Qed.

Lemma Zdigits2_bounds (m : Z) :
  0 < m -> 0 < Zdigits2 m /\ 2 ^ (Zdigits2 m - 1) <= m < 2 ^ Zdigits2 m.
Proof.
  destruct m as [|p|p]; try lia. intros _. cbn [Zdigits2].
  split; [lia | apply digits2_pos_bounds].
Qed.

Lemma Zdigits2_nonneg (m : Z) : 0 <= Zdigits2 m.
Proof. destruct m; cbn; lia. Qed.

Lemma Zdigits2_le (m k : Z) : 0 <= m -> 0 <= k -> m < 2 ^ k -> Zdigits2 m <= k.
Proof.
  intros Hm Hk Hlt. destruct (Z.eq_dec m 0) as [->|Hne]; [cbn; lia|].
  destruct (Zdigits2_bounds m) as (Hpos & Hlo & _); [lia|].
  destruct (Z.le_gt_cases (Zdigits2 m) k) as [|Hgt]; [assumption|].
  assert (2 ^ k <= 2 ^ (Zdigits2 m - 1)) by (apply Z.pow_le_mono_r; lia). lia.
Qed.

Lemma Zdigits2_gt (m k : Z) : 0 <= k -> 2 ^ k <= m -> k < Zdigits2 m.
Proof.
  intros Hk Hle.
  assert (0 < 2 ^ k) by (apply Z.pow_pos_nonneg; lia).
  destruct (Zdigits2_bounds m) as (Hpos & _ & Hhi); [lia|].
  destruct (Z.lt_ge_cases k (Zdigits2 m)) as [|Hge]; [assumption|].
  assert (2 ^ Zdigits2 m <= 2 ^ k) by (apply Z.pow_le_mono_r; lia). lia.
Qed.

Lemma shr_1_m (r : shr_record) : 0 <= shr_m r -> shr_m (shr_1 r) = shr_m r / 2.
Proof.
  destruct r as [m b s]. cbn [shr_m]. intros Hm.
  destruct m as [|[p|p|]|p]; try lia; cbn [shr_1 shr_m].
  - reflexivity.
  - rewrite Pos2Z.inj_xI. apply Z.div_unique with (r := 1); lia.
  - rewrite Pos2Z.inj_xO. apply Z.div_unique with (r := 0); lia.
  - reflexivity.
Qed.

Lemma iter_shr_1_m (p : positive) :
  forall r : shr_record, 0 <= shr_m r ->
    shr_m (SpecFloat.iter_pos shr_1 p r) = shr_m r / 2 ^ Z.pos p.
Proof.
  induction p as [p IH|p IH|]; intros r Hr; cbn [SpecFloat.iter_pos].
  - assert (H1 : 0 <= shr_m (shr_1 r)) by (rewrite shr_1_m by assumption; apply Z.div_pos; lia).
    assert (Hp : 0 < 2 ^ Z.pos p) by (apply Z.pow_pos_nonneg; lia).
    assert (H2 : 0 <= shr_m (SpecFloat.iter_pos shr_1 p (shr_1 r)))
      by (rewrite IH by assumption; apply Z.div_pos; lia).
    rewrite IH, IH, shr_1_m by assumption.
    rewrite !Z.div_div by lia. f_equal.
    assert (E : Z.pos p~1 = 1 + Z.pos p + Z.pos p) by lia.
    rewrite E, !Z.pow_add_r by lia. change (2 ^ 1) with 2. lia.
  - assert (Hp : 0 < 2 ^ Z.pos p) by (apply Z.pow_pos_nonneg; lia).
    assert (H2 : 0 <= shr_m (SpecFloat.iter_pos shr_1 p r))
      by (rewrite IH by assumption; apply Z.div_pos; lia).
    rewrite IH, IH by assumption.
    rewrite !Z.div_div by lia. f_equal.
    assert (E : Z.pos p~0 = Z.pos p + Z.pos p) by lia.
    rewrite E, !Z.pow_add_r by lia. reflexivity.
  - rewrite shr_1_m by assumption. reflexivity.
Qed.

Lemma shr_record_of_loc_m (m : Z) (l : location) : shr_m (shr_record_of_loc m l) = m.
Proof. destruct l as [|[]]; reflexivity. Qed.

(** The mantissa and exponent after the shift that brings a number to
    the exponent of its format. *)
Lemma shr_fexp_spec (m e : Z) (l : location) :
  0 <= m ->
  shr_m (fst (shr_fexp Float.prec Float.emax m e l)) =
    m / 2 ^ Z.max (fexp Float.prec Float.emax (Zdigits2 m + e) - e) 0 /\
  snd (shr_fexp Float.prec Float.emax m e l) = e + Z.max (fexp Float.prec Float.emax (Zdigits2 m + e) - e) 0.
Proof.
  intros Hm. unfold shr_fexp, shr.
  destruct (fexp Float.prec Float.emax (Zdigits2 m + e) - e) as [|p|p]; cbn [fst snd].
  - rewrite shr_record_of_loc_m, Z.div_1_r. split; [reflexivity | lia].
  - rewrite iter_shr_1_m by (rewrite shr_record_of_loc_m; assumption).
    rewrite shr_record_of_loc_m. replace (Z.max (Z.pos p) 0) with (Z.pos p) by lia.
    split; reflexivity.
  - rewrite shr_record_of_loc_m. replace (Z.max (Z.neg p) 0) with 0 by lia.
    rewrite Z.div_1_r. split; [reflexivity | lia].
Qed.

Lemma round_nearest_even_bounds (m : Z) (l : location) :
  m <= round_nearest_even m l <= m + 1.
Proof.
  unfold round_nearest_even. destruct l as [|[]]; try lia.
  destruct (Z.even m); lia.
Qed.

(** Rounding a positive mantissa yields a number as soon as the exponent
    that the two shifts reach is in range. *)
Lemma binary_round_aux_finite (sx : bool) (mx ex : Z) (lx : location) :
  0 < mx ->
  (forall m2 : Z,
     let n0 := Z.max (fexp Float.prec Float.emax (Zdigits2 mx + ex) - ex) 0 in
     mx / 2 ^ n0 <= m2 <= mx / 2 ^ n0 + 1 ->
     ex + n0 + Z.max (fexp Float.prec Float.emax (Zdigits2 m2 + (ex + n0)) - (ex + n0)) 0
       <= Float.emax - Float.prec) ->
  Float.is_finite (binary_round_aux Float.prec Float.emax sx mx ex lx) = true.
Proof.
  intros Hmx Hexp. unfold binary_round_aux.
  destruct (shr_fexp_spec mx ex lx) as [Hm1 He1]; [lia|].
  destruct (shr_fexp Float.prec Float.emax mx ex lx) as [r1 e1]. cbn [fst snd] in Hm1, He1.
  pose proof (round_nearest_even_bounds (shr_m r1) (loc_of_shr_record r1)) as Hr.
  set (m2 := round_nearest_even (shr_m r1) (loc_of_shr_record r1)) in *.
  assert (H1 : 0 <= shr_m r1).
  { rewrite Hm1. apply Z.div_pos; [lia|]. apply Z.pow_pos_nonneg; lia. }
  destruct (shr_fexp_spec m2 e1 loc_Exact) as [Hm3 He3]; [lia|].
  destruct (shr_fexp Float.prec Float.emax m2 e1 loc_Exact) as [r2 e2]. cbn [fst snd] in Hm3, He3.
  assert (H3 : 0 <= shr_m r2).
  { rewrite Hm3. apply Z.div_pos; [lia|]. apply Z.pow_pos_nonneg; lia. }
  specialize (Hexp m2). cbv zeta in Hexp. rewrite <- Hm1, <- He1, <- He3 in Hexp.
  specialize (Hexp Hr).
  destruct (shr_m r2) as [|p|p]; [reflexivity | | lia].
  replace (e2 <=? Float.emax - Float.prec) with true by (symmetry; apply Z.leb_le; assumption).
  reflexivity.
Qed.

(** The exponent reached when a binary64 mantissa is multiplied by a
    53-bit constant below 1. *)
Lemma product_exponent (m e M m2 : Z) :
  0 < m -> Zdigits2 m <= 53 -> e <= 971 ->
  2 ^ 52 <= M < 2 ^ 53 ->
  let mx := m * M in
  let ex := e + -53 in
  let n0 := Z.max (fexp Float.prec Float.emax (Zdigits2 mx + ex) - ex) 0 in
  mx / 2 ^ n0 <= m2 <= mx / 2 ^ n0 + 1 ->
  ex + n0 + Z.max (fexp Float.prec Float.emax (Zdigits2 m2 + (ex + n0)) - (ex + n0)) 0 <= Float.emax - Float.prec.
Proof.
  intros Hm Hdm He HM mx ex n0 Hm2.
  destruct (Zdigits2_bounds m Hm) as (Hdpos & Hlo & Hhi).
  set (dm := Zdigits2 m) in *.
  assert (Hmx : 0 < mx) by (subst mx; nia).
  destruct (Zdigits2_bounds mx Hmx) as (Hd0pos & Hlo0 & Hhi0).
  set (d0 := Zdigits2 mx) in *.
  assert (Hpdm : 0 < 2 ^ (dm - 1)) by (apply Z.pow_pos_nonneg; lia).
  assert (Hdm2 : 2 ^ dm = 2 * 2 ^ (dm - 1)).
  { replace dm with (Z.succ (dm - 1)) at 1 by lia. apply Z.pow_succ_r. lia. }
  (* the product has 52 or 53 digits more than [m] *)
  assert (Hup : mx < 2 ^ (dm + 53)).
  { rewrite Z.pow_add_r by lia. subst mx. nia. }
  assert (Hdn : 2 ^ (dm + 51) <= mx).
  { replace (dm + 51) with ((dm - 1) + 52) by lia. rewrite Z.pow_add_r by lia.
    subst mx. nia. }
  assert (F1a : d0 <= dm + 53) by (apply Zdigits2_le; lia).
  assert (F1b : dm + 51 < d0) by (apply Zdigits2_gt; lia).
  assert (Hn0 : 0 <= n0) by (subst n0; lia).
  assert (Hpn0 : 0 < 2 ^ n0) by (apply Z.pow_pos_nonneg; lia).
  assert (Hm1 : 0 <= mx / 2 ^ n0 <= mx).
  { split; [apply Z.div_pos; lia|]. apply Z.div_le_upper_bound; [lia|]. nia. }
  (* rounding adds at most one digit *)
  assert (F2 : Zdigits2 m2 <= d0 + 1).
  { apply Zdigits2_le; [lia | lia |].
    rewrite Z.pow_add_r by lia. change (2 ^ 1) with 2. lia. }
  (* after a shift by [d0 - 53] there are 53 digits left *)
  assert (F3 : n0 = d0 - 53 -> Zdigits2 m2 <= 54).
  { intros E. apply Zdigits2_le; [lia | lia |].
    assert (mx / 2 ^ n0 < 2 ^ 53).
    { apply Z.div_lt_upper_bound; [lia|]. rewrite <- Z.pow_add_r by lia.
      replace (n0 + 53) with d0 by lia. lia. }
    change (2 ^ 54) with (2 * 2 ^ 53). lia. }
  (* and the constant keeps the mantissa below 2^53 *)
  assert (F4 : n0 = dm -> Zdigits2 m2 <= 53).
  { intros E. apply Zdigits2_le; [lia | lia |].
    assert (mx / 2 ^ n0 < M).
    { apply Z.div_lt_upper_bound; [lia|]. rewrite E. subst mx. nia. }
    lia. }
  assert (Hd2 : 0 <= Zdigits2 m2) by apply Zdigits2_nonneg.
  unfold fexp, SpecFloat.emin, Float.prec, Float.emax in *. fold d0 in n0.
  subst n0 ex. lia.
Qed.

End Rounding.

(** ** The decay law *)

Lemma decay_factor_value :
  Float.sub (Float.of_int 1) SPIKE_DECAY = S754_finite false 8106479329266893 (-53).
Proof. vm_compute. reflexivity. Qed.

Lemma bounded_digits (m : positive) (e : Z) :
  bounded Float.prec Float.emax m e = true ->
  (Zdigits2 (Z.pos m) <= 53 /\ e <= 971)%Z.
Proof.
  unfold bounded, canonical_mantissa. intros H.
  apply andb_prop in H as [Hc He].
  apply Z.eqb_eq in Hc. apply Z.leb_le in He.
  unfold fexp, SpecFloat.emin, Float.prec, Float.emax in *. cbn [Zdigits2]. lia.
Qed.

(** The decay step takes a real level to a real level: it neither
    overflows nor yields NaN. *)
Lemma decayed_finite (l : float) :
  real_number l -> Float.is_finite (decayed l) = true.
Proof.
  intros [Hfin Hvalid]. unfold decayed, Float.mul. rewrite decay_factor_value.
  destruct l as [s|s| |s m e]; try discriminate Hfin; [reflexivity|].
  cbn [SFmul valid_binary] in *.
  destruct (bounded_digits m e Hvalid) as [Hd He].
  apply binary_round_aux_finite; [lia|].
  intros m2. rewrite Pos2Z.inj_mul.
  apply product_exponent; try assumption; [lia|]. split; [|reflexivity].
  vm_compute. discriminate.
Qed.

Lemma eqb_finite_neg_inf (x : float) :
  Float.is_finite x = true -> Float.eqb x Float.neg_inf = false.
Proof. destruct x as [[]|[]| |[]]; intros H; try discriminate H; reflexivity. Qed.

Lemma eqb_refl_finite (x : float) : Float.is_finite x = true -> Float.eqb x x = true.
Proof.
  destruct x as [s|s| |s m e]; intros H; try discriminate H; [reflexivity|].
  unfold Float.eqb, SFeqb; cbn [SFcompare].
  rewrite Z.compare_refl, Pos.compare_cont_refl. destruct s; reflexivity.
Qed.

(** Adding [0.0] changes nothing, except that it turns [-0.0] into
    [0.0]. *)
Lemma add_zero_finite (x : float) :
  Float.is_finite x = true ->
  Float.eqb (Float.add x Float.zero) x = true /\
  (Float.add x Float.zero = x \/ x = Float.neg_zero /\ Float.add x Float.zero = Float.zero).
Proof.
  intros H. destruct x as [[]|s| |s m e]; try discriminate H.
  - split; [reflexivity | right; split; reflexivity].
  - split; [reflexivity | left; reflexivity].
  - change (Float.add (S754_finite s m e) Float.zero) with (S754_finite s m e).
    split; [apply eqb_refl_finite; reflexivity | left; reflexivity].
Qed.

(** C5, as amended: a charging neuron whose level [L] is a finite
    binary64 number and whose synaptic weights are finite, fed zeros of
    the right width, has the level [L * (1 - 0.1)] after one [compute]
    that does not fire: the two are equal as numbers, and identical
    unless the product is [-0.0], which the addition of the weighted sum
    [0.0] turns into [0.0].  The bias may be any value. *)
Theorem decay_law (n : SpikyNode.t) (inputs : list float) (lvl : float) :
  real_number (SpikyNode.level n) ->
  Forall (fun x => Float.is_zero x = true) inputs ->
  length inputs + 1 = length (SpikyNode._weights n) ->
  Forall (fun w => Float.is_finite w = true)
         (take (length inputs) (SpikyNode._weights n)) ->
  returned (SpikyNode.compute inputs n) = Ok (Float.zero, lvl) ->
  SpikyNode.level (after (SpikyNode.compute inputs n)) = lvl /\
  Float.eqb lvl (Float.mul (SpikyNode.level n) (Float.sub (Float.of_int 1) SPIKE_DECAY))
    = true /\
  (lvl = Float.mul (SpikyNode.level n) (Float.sub (Float.of_int 1) SPIKE_DECAY) \/
   Float.mul (SpikyNode.level n) (Float.sub (Float.of_int 1) SPIKE_DECAY) = Float.neg_zero /\
   lvl = Float.zero).
Proof.
  intros Hreal Hz Hlen Hfin Hret.
  destruct (last_is_Some (SpikyNode._weights n)) as [bias Hbias]; [lia|].
  rewrite (compute_match n inputs bias Hlen Hbias) in *.
  pose proof (decayed_finite _ Hreal) as Hd.
  assert (Hc : charged n inputs = Float.add (decayed (SpikyNode.level n)) Float.zero).
  { unfold charged. rewrite (eqb_finite_neg_inf _ Hd).
    rewrite (dot_zero_inputs_synaptic _ _ Hz Hfin). reflexivity. }
  fold (decayed (SpikyNode.level n)).
  destruct (Float.geb (charged n inputs) bias); unfold returned, after in *; cbn in *.
  - exfalso. apply one_not_zero. congruence.
  - assert (lvl = charged n inputs) by congruence. subst lvl.
    split; [reflexivity|]. rewrite Hc. apply add_zero_finite. assumption.
Qed.

Lemma decay_law_witness :
  SpikyNode.level (after (SpikyNode.compute [Float.zero] high_bias_node))
    = Float.decimal 9 10.
Proof.
  destruct (decay_law high_bias_node [Float.zero] (Float.decimal 9 10))
    as (Hl & _ & _).
  - split; reflexivity.
  - repeat constructor.
  - reflexivity.
  - cbn. repeat constructor.
  - vm_compute. reflexivity.
  - exact Hl.
Defined.

(** With a synaptic weight of infinity the weighted sum of zeros is NaN:
    the neuron of level 1.0 does not fire and is left with level NaN, not
    with 0.9. *)
Lemma decay_law_fails_with_infinite_weight :
  real_number (SpikyNode.level inf_weight_node) /\
  Forall (fun x => Float.is_zero x = true) [Float.zero] /\
  length [Float.zero] + 1 = length (SpikyNode._weights inf_weight_node) /\
  returned (SpikyNode.compute [Float.zero] inf_weight_node) = Ok (Float.zero, S754_nan) /\
  SpikyNode.level (after (SpikyNode.compute [Float.zero] inf_weight_node)) = S754_nan /\
  Float.mul (SpikyNode.level inf_weight_node) (Float.sub (Float.of_int 1) SPIKE_DECAY)
    = Float.decimal 9 10 /\
  Float.eqb S754_nan
    (Float.mul (SpikyNode.level inf_weight_node) (Float.sub (Float.of_int 1) SPIKE_DECAY))
    = false.
Proof.
  split; [split; reflexivity|]. split; [repeat constructor|]. split; [reflexivity|].
  vm_compute. repeat split.
Qed.

(** * Further properties of the neuron, the layer and the network *)

(** ** One step of a neuron *)

Lemma compute_never_raises_aux (inputs : list float) (n : SpikyNode.t) :
  exists out lvl : float,
    returned (SpikyNode.compute inputs n) = Ok (out, lvl) /\
    (out = Float.zero \/ out = Float.one).
Proof.
  destruct (decide (length inputs + 1 = length (SpikyNode._weights n))) as [He|Hne].
  - destruct (last_is_Some (SpikyNode._weights n)) as [b Hb]; [lia|].
    rewrite (compute_match n inputs b He Hb).
    destruct (Float.geb _ b); unfold returned; cbn; eauto.
  - rewrite (compute_mismatch n inputs Hne). unfold returned; cbn. eauto.
Qed.

(** X1: [compute] never raises, whatever the neuron and the inputs: the
    indices of the weighted sum and the bias lookup stay in range.  Its
    firing output is 0.0 or 1.0 and the level it returns is the level the
    neuron holds afterwards. *)
Theorem compute_never_raises (n : SpikyNode.t) (inputs : list float) :
  exists out lvl : float,
    returned (SpikyNode.compute inputs n) = Ok (out, lvl) /\
    binary out /\
    lvl = SpikyNode.level (after (SpikyNode.compute inputs n)).
Proof.
  destruct (decide (length inputs + 1 = length (SpikyNode._weights n))) as [He|Hne].
  - destruct (last_is_Some (SpikyNode._weights n)) as [b Hb]; [lia|].
    rewrite (compute_match n inputs b He Hb).
    destruct (Float.geb _ b); unfold returned, after, binary; cbn; eauto 6.
  - rewrite (compute_mismatch n inputs Hne). unfold returned, after, binary; cbn.
    eauto 6.
Qed.

(** X2: with an input of the right width, [compute] appends the level it
    reached to the levels log and fires exactly when that level is at
    least the bias.  On a spike the log keeps the level that crossed the
    threshold while the neuron is reset; otherwise the neuron keeps the
    level.  The weights are untouched, nothing is printed, and the firing
    history receives the 1 or the 0. *)
Theorem compute_threshold (n : SpikyNode.t) (inputs : list float) (bias : float) :
  length inputs + 1 = length (SpikyNode._weights n) ->
  returned (SpikyNode.get_bias n) = Ok bias ->
  exists reached : float,
    reached = charged n inputs /\
    SpikyNode.levels_log (after (SpikyNode.compute inputs n))
      = SpikyNode.levels_log n ++ [reached] /\
    SpikyNode._weights (after (SpikyNode.compute inputs n)) = SpikyNode._weights n /\
    printed (SpikyNode.compute inputs n) = [] /\
    (Float.geb reached bias = true /\
     returned (SpikyNode.compute inputs n) = Ok (Float.one, Float.neg_inf) /\
     SpikyNode.level (after (SpikyNode.compute inputs n)) = Float.neg_inf /\
     SpikyNode.firelog (after (SpikyNode.compute inputs n))
       = RingBuffer.add 1 (SpikyNode.firelog n)
     \/
     Float.geb reached bias = false /\
     returned (SpikyNode.compute inputs n) = Ok (Float.zero, reached) /\
     SpikyNode.level (after (SpikyNode.compute inputs n)) = reached /\
     SpikyNode.firelog (after (SpikyNode.compute inputs n))
       = RingBuffer.add 0 (SpikyNode.firelog n)).
Proof.
  intros Hlen Hbias.
  assert (Hlast : last (SpikyNode._weights n) = Some bias).
  { unfold SpikyNode.get_bias, returned in Hbias.
    destruct (last (SpikyNode._weights n)); cbn in Hbias; congruence. }
  exists (charged n inputs). split; [reflexivity|].
  rewrite (compute_match n inputs bias Hlen Hlast).
  destruct (Float.geb (charged n inputs) bias); unfold returned, after, printed; cbn.
  - repeat split. left. repeat split.
  - repeat split. right. repeat split.
Qed.

Lemma compute_threshold_witness :
  SpikyNode.levels_log (after (SpikyNode.compute [Float.zero] high_bias_node))
    = [Float.decimal 9 10].
Proof.
  destruct (compute_threshold high_bias_node [Float.zero] (Float.of_int 2))
    as (reached & -> & Hlog & _).
  - reflexivity.
  - reflexivity.
  - rewrite Hlog. vm_compute. reflexivity.
Defined.

(** ** The weight vector *)

Lemma set_bias_nonempty (n : SpikyNode.t) (val : float) :
  SpikyNode._weights n <> [] ->
  SpikyNode.set_bias val n =
    (Ok tt,
     SpikyNode.set__weights
       (<[length (SpikyNode._weights n) - 1 := val]> (SpikyNode._weights n)) n,
     []).
Proof.
  intros H. unfold SpikyNode.set_bias. run.
  destruct (SpikyNode._weights n) as [|w ws] eqn:E; [contradiction|]. reflexivity.
Qed.

Lemma set_bias_empty (n : SpikyNode.t) (val : float) :
  SpikyNode._weights n = [] ->
  SpikyNode.set_bias val n = (Raise IndexError, n, []).
Proof.
  intros H. unfold SpikyNode.set_bias. run. rewrite H. reflexivity.
Qed.

Lemma do_call_weights_length (n : SpikyNode.t) (c : node_call) :
  length (SpikyNode._weights (do_call n c)) = length (SpikyNode._weights n).
Proof.
  destruct c as [inputs|w|val]; cbn [do_call].
  - destruct (decide (length inputs + 1 = length (SpikyNode._weights n))) as [He|Hne].
    + destruct (last_is_Some (SpikyNode._weights n)) as [b Hb]; [lia|].
      rewrite (compute_match n inputs b He Hb).
      destruct (Float.geb _ b); reflexivity.
    + rewrite (compute_mismatch n inputs Hne). reflexivity.
  - destruct (decide (length w = length (SpikyNode._weights n))) as [He|Hne].
    + rewrite set_weights_match by assumption. unfold after; cbn.
      rewrite abs_but_last_length. assumption.
    + rewrite set_weights_mismatch by assumption. reflexivity.
  - destruct (SpikyNode._weights n) as [|x ws] eqn:E.
    + rewrite set_bias_empty by assumption. unfold after; cbn. rewrite E. reflexivity.
    + rewrite set_bias_nonempty by (rewrite E; discriminate).
      unfold after; cbn. rewrite E, length_insert. reflexivity.
Qed.

(** X3: a neuron created for [size] inputs has [size + 1] weights, and no
    sequence of [compute], [set_weights] and [set_bias] calls, accepted or
    not, ever changes that number. *)
Theorem weights_length_invariant (size : nat) (g : RandomState) (calls : list node_call) :
  length (SpikyNode._weights (do_calls (SpikyNode.__init__ size g).1 calls)) = size + 1.
Proof.
  assert (Hinit : length (SpikyNode._weights (SpikyNode.__init__ size g).1) = size + 1).
  { unfold SpikyNode.__init__, uniform; cbn. rewrite length_map, length_seq. reflexivity. }
  revert Hinit. generalize (SpikyNode.__init__ size g).1. unfold do_calls.
  induction calls as [|c calls IH]; intros n Hn; cbn [foldl]; [assumption|].
  apply IH. rewrite do_call_weights_length. assumption.
Qed.

Lemma negative_abs (x : float) : negative (Float.abs x) = false.
Proof. destruct x as [s|s| |s m e]; reflexivity. Qed.

Lemma abs_but_last_last (w : list float) : last (abs_but_last w) = last w.
Proof.
  induction w as [|x [|y w] IH]; [reflexivity | reflexivity |].
  change (abs_but_last (x :: y :: w)) with (Float.abs x :: abs_but_last (y :: w)).
  destruct (abs_but_last (y :: w)) as [|z zs] eqn:E.
  - pose proof (abs_but_last_length (y :: w)) as Hl. rewrite E in Hl. discriminate Hl.
  - rewrite last_cons_cons, IH. reflexivity.
Qed.

(** X4: after an accepted [set_weights] no synaptic weight is negative,
    whatever the signs in the vector, while the bias is stored as given:
    [get_bias] returns the last entry of the vector, negative or not. *)
Theorem set_weights_signs (n : SpikyNode.t) (vec : list float) (b : float) :
  length vec = length (SpikyNode._weights n) ->
  last vec = Some b ->
  (forall (i : nat) (x : float),
     i + 1 < length vec ->
     SpikyNode._weights (after (SpikyNode.set_weights vec n)) !! i = Some x ->
     negative x = false) /\
  returned (SpikyNode.get_bias (after (SpikyNode.set_weights vec n))) = Ok b.
Proof.
  intros Hlen Hb. rewrite (set_weights_match n vec Hlen). unfold after; cbn. split.
  - intros i x Hi Hx.
    destruct (lookup_lt_is_Some_2 vec i) as [y Hy]; [lia|].
    rewrite (abs_but_last_lookup vec i y Hy) in Hx.
    destruct (Nat.eqb_spec (i + 1) (length vec)); [lia|].
    injection Hx as <-. apply negative_abs.
  - unfold SpikyNode.get_bias, returned; cbn. rewrite abs_but_last_last, Hb. reflexivity.
Qed.

Lemma set_weights_signs_witness :
  returned (SpikyNode.get_bias
              (after (SpikyNode.set_weights
                        [Float.decimal (-3) 10; Float.decimal (-7) 10] charged_node)))
    = Ok (Float.decimal (-7) 10).
Proof.
  refine (proj2 (set_weights_signs charged_node
                   [Float.decimal (-3) 10; Float.decimal (-7) 10]
                   (Float.decimal (-7) 10) _ _)); reflexivity.
Defined.

Lemma abs_but_last_idempotent (w : list float) :
  abs_but_last (abs_but_last w) = abs_but_last w.
Proof.
  induction w as [|x [|y w] IH]; [reflexivity | reflexivity |].
  change (abs_but_last (x :: y :: w)) with (Float.abs x :: abs_but_last (y :: w)).
  destruct (abs_but_last (y :: w)) as [|z zs] eqn:E.
  - pose proof (abs_but_last_length (y :: w)) as Hl. rewrite E in Hl. discriminate Hl.
  - change (abs_but_last (Float.abs x :: z :: zs))
      with (Float.abs (Float.abs x) :: abs_but_last (z :: zs)).
    rewrite IH. f_equal. destruct x; reflexivity.
Qed.

(** X5: assigning weights is idempotent.  Assigning the same vector a
    second time, or assigning a neuron the weights it already reports
    after an assignment, changes nothing and prints nothing. *)
Theorem set_weights_idempotent (n : SpikyNode.t) (vec : list float) :
  length vec = length (SpikyNode._weights n) ->
  SpikyNode.set_weights vec (after (SpikyNode.set_weights vec n))
    = (Ok tt, after (SpikyNode.set_weights vec n), []) /\
  SpikyNode.set_weights (SpikyNode._weights (after (SpikyNode.set_weights vec n)))
      (after (SpikyNode.set_weights vec n))
    = (Ok tt, after (SpikyNode.set_weights vec n), []).
Proof.
  intros Hlen. rewrite (set_weights_match n vec Hlen). unfold after; cbn. split.
  - rewrite set_weights_match by (cbn; rewrite abs_but_last_length; reflexivity).
    reflexivity.
  - rewrite set_weights_match by reflexivity. cbn.
    rewrite abs_but_last_idempotent. reflexivity.
Qed.

Lemma set_weights_idempotent_witness :
  SpikyNode.set_weights [Float.decimal (-3) 10; Float.decimal (-7) 10]
      (after (SpikyNode.set_weights [Float.decimal (-3) 10; Float.decimal (-7) 10]
                charged_node))
    = (Ok tt,
       after (SpikyNode.set_weights [Float.decimal (-3) 10; Float.decimal (-7) 10]
                charged_node),
       []).
Proof.
  refine (proj1 (set_weights_idempotent charged_node
                   [Float.decimal (-3) 10; Float.decimal (-7) 10] _)).
  reflexivity.
Defined.

(** X6: [set_bias] followed by [get_bias] returns the value that was
    set; [set_bias] replaces the last weight only and keeps level, history
    and levels log.  On a neuron without weights both raise IndexError and
    change nothing. *)
Theorem set_bias_get_bias (n : SpikyNode.t) (val : float) :
  (SpikyNode._weights n <> [] ->
   returned (SpikyNode.set_bias val n) = Ok tt /\
   returned (SpikyNode.get_bias (after (SpikyNode.set_bias val n))) = Ok val /\
   (forall i : nat,
      i + 1 < length (SpikyNode._weights n) ->
      SpikyNode._weights (after (SpikyNode.set_bias val n)) !! i
        = SpikyNode._weights n !! i) /\
   SpikyNode.level (after (SpikyNode.set_bias val n)) = SpikyNode.level n /\
   SpikyNode.firelog (after (SpikyNode.set_bias val n)) = SpikyNode.firelog n /\
   SpikyNode.levels_log (after (SpikyNode.set_bias val n)) = SpikyNode.levels_log n) /\
  (SpikyNode._weights n = [] ->
   SpikyNode.set_bias val n = (Raise IndexError, n, []) /\
   SpikyNode.get_bias n = (Raise IndexError, n, [])).
Proof.
  split.
  - intros Hne. rewrite (set_bias_nonempty n val Hne). unfold returned, after; cbn.
    assert (Hpos : 0 < length (SpikyNode._weights n))
      by (destruct (SpikyNode._weights n); [contradiction | cbn; lia]).
    split; [reflexivity|]. split; [|split; [|repeat split]].
    + unfold SpikyNode.get_bias; cbn.
      rewrite last_lookup, length_insert.
      replace (pred (length (SpikyNode._weights n)))
        with (length (SpikyNode._weights n) - 1) by lia.
      rewrite list_lookup_insert_eq by lia. reflexivity.
    + intros i Hi. apply list_lookup_insert_ne. lia.
  - intros He. split; [apply set_bias_empty; assumption|].
    unfold SpikyNode.get_bias. rewrite He. reflexivity.
Qed.

Lemma set_bias_get_bias_witness :
  returned (SpikyNode.get_bias (after (SpikyNode.set_bias (Float.of_int 3) charged_node)))
    = Ok (Float.of_int 3) /\
  SpikyNode.set_bias (Float.of_int 3) empty_node = (Raise IndexError, empty_node, []).
Proof.
  destruct (set_bias_get_bias charged_node (Float.of_int 3)) as [H _].
  destruct (set_bias_get_bias empty_node (Float.of_int 3)) as [_ H'].
  split.
  - destruct H as (_ & Hg & _); [discriminate | exact Hg].
  - destruct H' as [Hs _]; [reflexivity | exact Hs].
Defined.

(** ** Sequences of steps *)

Lemma compute_nan (n : SpikyNode.t) (inputs : list float) :
  SpikyNode.level n = S754_nan ->
  returned (SpikyNode.compute inputs n) = Ok (Float.zero, S754_nan) /\
  SpikyNode.level (after (SpikyNode.compute inputs n)) = S754_nan.
Proof.
  intros Hnan.
  destruct (decide (length inputs + 1 = length (SpikyNode._weights n))) as [He|Hne].
  - destruct (last_is_Some (SpikyNode._weights n)) as [b Hb]; [lia|].
    rewrite (compute_match n inputs b He Hb).
    assert (Hc : charged n inputs = S754_nan).
    { unfold charged. rewrite Hnan. reflexivity. }
    rewrite Hc.
    replace (Float.geb S754_nan b) with false by (destruct b as [[]|[]| |[]]; reflexivity).
    split; reflexivity.
  - rewrite (compute_mismatch n inputs Hne). unfold returned, after; cbn.
    rewrite Hnan. split; reflexivity.
Qed.

(** X7: a level that has become NaN never leaves: every later [compute],
    whatever its inputs, returns 0.0 with level NaN, so the neuron never
    fires again. *)
Theorem nan_level_is_absorbing (n : SpikyNode.t) :
  SpikyNode.level n = S754_nan ->
  forall steps : list (list float),
    SpikyNode.level (run_inputs n steps) = S754_nan /\
    forall inputs : list float,
      returned (SpikyNode.compute inputs (run_inputs n steps)) = Ok (Float.zero, S754_nan).
Proof.
  intros Hnan steps. revert n Hnan. unfold run_inputs.
  induction steps as [|inputs steps IH]; intros n Hnan; cbn [foldl].
  - split; [assumption|]. intros inputs. apply compute_nan. assumption.
  - apply IH. apply compute_nan. assumption.
Qed.

Lemma nan_level_is_absorbing_witness :
  returned (SpikyNode.compute [Float.of_int 5]
              (run_inputs nan_node [[Float.of_int 1]; []; [Float.of_int 2]]))
    = Ok (Float.zero, S754_nan).
Proof.
  refine (proj2 (nan_level_is_absorbing nan_node _ [[Float.of_int 1]; []; [Float.of_int 2]])
                [Float.of_int 5]).
  reflexivity.
Defined.



Lemma compute_weights (n : SpikyNode.t) (inputs : list float) :
  SpikyNode._weights (after (SpikyNode.compute inputs n)) = SpikyNode._weights n.
Proof.
  destruct (decide (length inputs + 1 = length (SpikyNode._weights n))) as [He|Hne].
  - destruct (last_is_Some (SpikyNode._weights n)) as [b Hb]; [lia|].
    rewrite (compute_match n inputs b He Hb). destruct (Float.geb _ b); reflexivity.
  - rewrite (compute_mismatch n inputs Hne). reflexivity.
Qed.

Lemma compute_levels_log (n : SpikyNode.t) (inputs : list float) :
  SpikyNode.levels_log (after (SpikyNode.compute inputs n)) =
    if decide (length inputs + 1 = length (SpikyNode._weights n))
    then SpikyNode.levels_log n ++ [charged n inputs]
    else SpikyNode.levels_log n.
Proof.
  destruct (decide (length inputs + 1 = length (SpikyNode._weights n))) as [He|Hne].
  - destruct (last_is_Some (SpikyNode._weights n)) as [b Hb]; [lia|].
    rewrite (compute_match n inputs b He Hb). destruct (Float.geb _ b); reflexivity.
  - rewrite (compute_mismatch n inputs Hne). reflexivity.
Qed.

(** X9: the levels log is append-only and never trimmed.  Over any
    sequence of [compute] calls it keeps what it held and gains exactly
    one entry per input of the right width; inputs of the wrong width add
    nothing. *)
Theorem levels_log_growth (n : SpikyNode.t) (steps : list (list float)) :
  exists new : list float,
    SpikyNode.levels_log (run_inputs n steps) = SpikyNode.levels_log n ++ new /\
    length new = length (accepted (length (SpikyNode._weights n)) steps).
Proof.
  revert n. unfold run_inputs, accepted.
  induction steps as [|inputs steps IH]; intros n; cbn [foldl].
  - exists []. rewrite app_nil_r. split; reflexivity.
  - destruct (IH (after (SpikyNode.compute inputs n))) as (new & Hlog & Hlen).
    rewrite compute_weights in Hlen. rewrite compute_levels_log in Hlog.
    rewrite filter_cons.
    destruct (decide (length inputs + 1 = length (SpikyNode._weights n))) as [He|Hne].
    + exists (charged n inputs :: new). rewrite Hlog, <- app_assoc. cbn.
      split; [reflexivity | lia].
    + exists new. split; assumption.
Qed.

(** ** Duty cycle *)

Lemma duty_cycle_range_nonempty (n : SpikyNode.t) (window : option Z) :
  node_wf n ->
  history n <> [] ->
  window = None \/ (exists w : Z, window = Some w /\ (0 < w)%Z) ->
  exists q : float,
    SpikyNode.duty_cycle window n = (Ok q, n, []) /\
    Float.geb q Float.zero = true /\
    Float.geb Float.one q = true.
Proof.
  intros Hwf Hne Hwin. pose proof (history_short n Hwf) as Hshort.
  assert (Hlen : 0 < length (history n))
    by (destruct (history n); [congruence | cbn; lia]).
  assert (Hall : forall win,
            win = None \/
            (exists w : Z, win = Some w /\ (Z.of_nat (length (history n)) < w)%Z) ->
            exists q, SpikyNode.duty_cycle win n = (Ok q, n, []) /\
                      Float.geb q Float.zero = true /\ Float.geb Float.one q = true).
  { intros win Hw. eexists. split; [apply duty_cycle_all; assumption|].
    pose proof (ones_bounds (history n)) as Hb.
    apply fraction_checked; lia. }
  destruct Hwin as [-> | (w & -> & Hw)]; [apply Hall; left; reflexivity|].
  destruct (Z.le_gt_cases w (Z.of_nat (length (history n)))) as [Hle|Hgt].
  + eexists. split; [apply duty_cycle_within; [assumption | lia]|].
    pose proof (ones_bounds (last_entries (Z.to_nat w) (history n))) as Hb.
    assert (Hl : length (last_entries (Z.to_nat w) (history n)) = Z.to_nat w).
    { unfold last_entries. rewrite length_drop. lia. }
    apply fraction_checked; lia.
  + apply Hall. right. exists w. split; [reflexivity | lia].
Qed.

(** X10: on a neuron whose history holds 0s and 1s, [duty_cycle] with
    [None] or any positive window raises nothing, leaves the neuron as it
    is, prints nothing and returns a value between 0.0 and 1.0. *)
Theorem duty_cycle_in_unit_interval (n : SpikyNode.t) (window : option Z) :
  node_wf n ->
  window = None \/ (exists w : Z, window = Some w /\ (0 < w)%Z) ->
  exists q : float,
    SpikyNode.duty_cycle window n = (Ok q, n, []) /\
    Float.geb q Float.zero = true /\
    Float.geb Float.one q = true.
Proof.
  intros Hwf Hwin.
  destruct (history n) as [|v h] eqn:Eh.
  - exists Float.zero. rewrite (duty_cycle_empty n window Eh). repeat split.
  - apply duty_cycle_range_nonempty; [assumption | | assumption].
    rewrite Eh. discriminate.
Qed.

Lemma duty_cycle_in_unit_interval_witness :
  exists q : float,
    SpikyNode.duty_cycle (Some 3%Z) short_history_node = (Ok q, short_history_node, []) /\
    Float.geb q Float.zero = true /\
    Float.geb Float.one q = true.
Proof.
  apply (duty_cycle_in_unit_interval short_history_node (Some 3%Z) short_history_node_wf).
  right. exists 3%Z. split; reflexivity.
Defined.

(** All the divisions by a negative window that leave part of a history
    of at most [MAX_FIRELOG_SIZE] entries. *)
Lemma negative_fractions_checked :
  table_sum_ok negative_fraction_ok MAX_FIRELOG_SIZE = true.
Proof. vm_compute. reflexivity. Qed.

Lemma forallb_table_sum (f : Z -> Z -> bool) (bound : nat) :
  table_sum_ok f bound = true ->
  forall a w : Z, (0 <= a)%Z -> (0 < w)%Z -> (a + w <= Z.of_nat bound)%Z -> f a w = true.
Proof.
  intros H a w Ha Hw Hsum. unfold table_sum_ok in H.
  rewrite forallb_forall in H.
  assert (Hin : In (Z.to_nat w - 1) (seq 0 bound)) by (apply in_seq; lia).
  specialize (H _ Hin). rewrite forallb_forall in H.
  assert (Hin' : In (Z.to_nat a) (seq 0 (bound - (Z.to_nat w - 1)))) by (apply in_seq; lia).
  specialize (H _ Hin').
  replace (Z.of_nat (S (Z.to_nat w - 1))) with w in H by lia.
  replace (Z.of_nat (Z.to_nat a)) with a in H by lia.
  exact H.
Qed.

Lemma int_truediv_quotient (a b : Z) (q : float) :
  int_truediv a b = Ok q -> q = quotient a b.
Proof.
  unfold int_truediv. destruct (b =? 0)%Z; [discriminate|].
  fold (quotient a b). destruct (quotient a b); intros Hq; congruence.
Qed.

Lemma slice_from_nonneg (l : list Z) (w : Z) :
  (0 <= w)%Z -> slice_from l w = drop (Z.to_nat w) l.
Proof.
  intros Hw. unfold slice_from, slice_bound.
  replace (w <? 0)%Z with false by (symmetry; apply Z.ltb_ge; lia).
  cbv zeta. replace (w <? 0)%Z with false by (symmetry; apply Z.ltb_ge; lia).
  destruct (Nat.le_gt_cases (Z.to_nat w) (length l)) as [Hle|Hgt].
  - rewrite Nat.min_l by assumption. reflexivity.
  - rewrite Nat.min_r by lia. rewrite !drop_ge by lia. reflexivity.
Qed.

(** X11: a negative window is not rejected.  On a neuron with some
    history, [duty_cycle(-w)] skips the first [w] entries, counts the 1s
    in the rest and divides by [-w]: it returns a value that is never
    above zero, and raises nothing. *)
Theorem duty_cycle_negative_window (n : SpikyNode.t) (w : Z) :
  node_wf n ->
  history n <> [] ->
  (0 < w)%Z ->
  SpikyNode.duty_cycle (Some (- w)%Z) n =
    (Ok (quotient (ones (drop (Z.to_nat w) (history n))) (- w)), n, []) /\
  Float.geb Float.zero (quotient (ones (drop (Z.to_nat w) (history n))) (- w)) = true.
Proof.
  intros Hwf Hne Hw. pose proof (history_short n Hwf) as Hshort.
  assert (Hlen : 0 < length (history n)) by (destruct (history n); [congruence | cbn; lia]).
  assert (Hbits : Forall (fun v => v = 0%Z \/ v = 1%Z) (drop (Z.to_nat w) (history n))).
  { apply Forall_drop, history_bits. assumption. }
  assert (Hdiv : int_truediv (ones (drop (Z.to_nat w) (history n))) (- w)
                 = Ok (quotient (ones (drop (Z.to_nat w) (history n))) (- w)) /\
                 Float.geb Float.zero
                   (quotient (ones (drop (Z.to_nat w) (history n))) (- w)) = true).
  { pose proof (ones_bounds (drop (Z.to_nat w) (history n))) as Hb.
    rewrite length_drop in Hb.
    destruct (Z.le_gt_cases (Z.of_nat (length (history n))) w) as [Hge|Hlt].
    - assert (H0 : ones (drop (Z.to_nat w) (history n)) = 0%Z) by lia.
      rewrite H0. destruct w as [|p|p]; try lia. split; reflexivity.
    - pose proof (forallb_table_sum negative_fraction_ok MAX_FIRELOG_SIZE
                    negative_fractions_checked
                    (ones (drop (Z.to_nat w) (history n))) w) as H.
      unfold negative_fraction_ok in H.
      destruct (int_truediv (ones (drop (Z.to_nat w) (history n))) (- w)) as [q|e] eqn:E.
      + rewrite <- (int_truediv_quotient _ _ _ E). split; [reflexivity|].
        apply H; lia.
      + assert (false = true) by (apply H; lia). discriminate. }
  destruct Hdiv as [Hdiv Hsign]. split; [|assumption].
  rewrite history_length in *.
  unfold SpikyNode.duty_cycle. run.
  destruct (Nat.eqb_spec (RingBuffer.length (SpikyNode.firelog n)) 0); [lia|].
  replace (- w >? Z.of_nat (RingBuffer.length (SpikyNode.firelog n)))%Z with false
    by (symmetry; rewrite Z.gtb_ltb; apply Z.ltb_ge; lia).
  fold (history n). rewrite Z.opp_involutive, slice_from_nonneg by lia.
  rewrite (sum_int_ones _ Hbits), Hdiv. reflexivity.
Qed.

Lemma duty_cycle_negative_window_witness :
  SpikyNode.duty_cycle (Some (Z.opp 1)) short_history_node
    = (Ok (Float.of_int (-2)), short_history_node, []).
Proof.
  destruct (duty_cycle_negative_window short_history_node 1%Z short_history_node_wf)
    as [-> _].
  - discriminate.
  - reflexivity.
  - vm_compute. reflexivity.
Defined.

(** ** One step of a layer *)

Lemma node_compute_eq (inputs : list float) (n : SpikyNode.t) :
  SpikyNode.compute inputs n =
    (Ok (node_output inputs n, node_level inputs n), node_step inputs n,
     printed (SpikyNode.compute inputs n)).
Proof.
  unfold node_output, node_level, node_step.
  destruct (compute_returns n inputs) as (out & lvl & Hr & Hl).
  destruct (SpikyNode.compute inputs n) as [[r n'] p].
  unfold returned, after, printed in *; cbn in *. subst. reflexivity.
Qed.

Lemma compute_loop_pointwise (inputs : list float) (todo : list SpikyNode.t) :
  forall outputs levels : list float,
    SpikyLayer.compute_loop inputs outputs levels todo =
      (Ok (outputs ++ map (node_output inputs) todo,
           levels ++ map (node_level inputs) todo),
       map (node_step inputs) todo,
       concat (map (fun n => printed (SpikyNode.compute inputs n)) todo)).
Proof.
  induction todo as [|node todo IH]; intros outputs levels; cbn [SpikyLayer.compute_loop].
  - cbn. rewrite !app_nil_r. reflexivity.
  - rewrite (node_compute_eq inputs node). rewrite IH. cbn.
    rewrite <- !app_assoc. reflexivity.
Qed.

Lemma layer_compute_eq (l : SpikyLayer.t) (inputs : list float) :
  SpikyLayer.compute inputs l =
    (Ok (map (node_output inputs) (SpikyLayer.nodes l),
         map (node_level inputs) (SpikyLayer.nodes l)),
     {| SpikyLayer.nodes := map (node_step inputs) (SpikyLayer.nodes l) |},
     concat (map (fun n => printed (SpikyNode.compute inputs n)) (SpikyLayer.nodes l))).
Proof.
  unfold SpikyLayer.compute, zoom. rewrite compute_loop_pointwise. reflexivity.
Qed.

Lemma node_output_binary (inputs : list float) (n : SpikyNode.t) :
  binary (node_output inputs n).
Proof.
  destruct (compute_never_raises_aux inputs n) as (out & lvl & Hr & Hb).
  unfold node_output. rewrite Hr. exact Hb.
Qed.

(** X12: a layer feeds the same inputs to each of its neurons, in order
    and independently: [compute] never raises, neuron [i] ends up as its
    own [compute] leaves it, position [i] of the two returned lists holds
    that neuron's firing output (0.0 or 1.0) and level, and the
    diagnostics are those of the neurons in order. *)
Theorem layer_compute_pointwise (l : SpikyLayer.t) (inputs : list float) :
  SpikyLayer.compute inputs l =
    (Ok (map (node_output inputs) (SpikyLayer.nodes l),
         map (node_level inputs) (SpikyLayer.nodes l)),
     {| SpikyLayer.nodes := map (node_step inputs) (SpikyLayer.nodes l) |},
     concat (map (fun n => printed (SpikyNode.compute inputs n)) (SpikyLayer.nodes l))) /\
  Forall binary (map (node_output inputs) (SpikyLayer.nodes l)) /\
  forall n : SpikyNode.t,
    returned (SpikyNode.compute inputs n) = Ok (node_output inputs n, node_level inputs n).
Proof.
  split; [|split].
  - apply layer_compute_eq.
  - apply Forall_map, Forall_forall. intros n _. apply node_output_binary.
  - intros n. rewrite (node_compute_eq inputs n) at 1. reflexivity.
Qed.

(** ** Building a layer *)

Lemma make_nodes_shape (num_nodes num_inputs : nat) :
  forall g : RandomState,
    (SpikyLayer.make_nodes num_nodes num_inputs g).1 =
      map (fun j => fresh_node (map (sample g)
                                  (seq (position g + j * (num_inputs + 1)) (num_inputs + 1))))
          (seq 0 num_nodes) /\
    (SpikyLayer.make_nodes num_nodes num_inputs g).2 =
      {| sample := sample g; position := position g + num_nodes * (num_inputs + 1) |}.
Proof.
  induction num_nodes as [|k IH]; intros g; cbn [SpikyLayer.make_nodes].
  - cbn. destruct g; cbn. split; [reflexivity|]. f_equal. lia.
  - unfold SpikyNode.__init__, uniform.
    set (g' := {| sample := sample g; position := position g + (num_inputs + 1) |}).
    destruct (IH g') as [Hn Hg].
    destruct (SpikyLayer.make_nodes k num_inputs g') as [rest g''].
    cbn [fst snd] in *. subst rest g''. split.
    + cbn [seq map]. f_equal.
      * rewrite Nat.add_0_r. reflexivity.
      * rewrite <- seq_shift, map_map. apply map_ext. intros j.
        subst g'; cbn. do 3 f_equal. lia.
    + subst g'; cbn. f_equal. lia.
Qed.

(** X13: a new layer has the requested number of neurons; neuron [j]
    holds the [num_inputs + 1] samples that follow those of its
    predecessors, so no two neurons share a draw, and starts at rest with
    an empty history and levels log.  The random source has advanced by
    [num_nodes * (num_inputs + 1)] samples. *)
Theorem layer_init_shape (num_nodes num_inputs : nat) (g : RandomState) :
  layer_shape num_nodes num_inputs (SpikyLayer.__init__ num_nodes num_inputs g).1 /\
  (forall (j : nat) (node : SpikyNode.t),
     SpikyLayer.nodes (SpikyLayer.__init__ num_nodes num_inputs g).1 !! j = Some node ->
     node = fresh_node (map (sample g)
                          (seq (position g + j * (num_inputs + 1)) (num_inputs + 1)))) /\
  (SpikyLayer.__init__ num_nodes num_inputs g).2 =
    {| sample := sample g; position := position g + num_nodes * (num_inputs + 1) |}.
Proof.
  unfold SpikyLayer.__init__.
  destruct (make_nodes_shape num_nodes num_inputs g) as [Hn Hg].
  destruct (SpikyLayer.make_nodes num_nodes num_inputs g) as [ns g'].
  cbn [fst snd SpikyLayer.nodes] in *. subst ns g'.
  split; [split|split].
  - cbn. rewrite length_map, length_seq. reflexivity.
  - cbn. apply Forall_map, Forall_forall. intros j _. cbn.
    rewrite length_map, length_seq. reflexivity.
  - intros j node Hj. rewrite list_lookup_fmap in Hj.
    destruct (seq 0 num_nodes !! j) as [j'|] eqn:E; [|discriminate].
    apply lookup_seq in E as [-> _]. cbn in Hj. congruence.
  - reflexivity.
Qed.

(** ** Assigning a flat vector to a layer *)

Lemma concat_imap_const {A B} (f : nat -> A -> list B) (l : list A) (x : list B) :
  (forall (j : nat) (a : A), l !! j = Some a -> f j a = x) ->
  concat (imap f l) = concat (replicate (length l) x).
Proof.
  revert f. induction l as [|a l IH]; intros f H; [reflexivity|].
  cbn. rewrite (H 0 a eq_refl). f_equal. apply IH.
  intros j b Hj. apply (H (S j) b Hj).
Qed.

(** X14: on a layer of [n > 0] neurons with [K] inputs each, a flat
    vector of exactly [n * (K + 1)] numbers is taken in full and silently:
    entry [j] of the vector becomes weight [j mod (K + 1)] of neuron
    [j / (K + 1)], as its absolute value unless it falls on the bias
    (the last weight of the neuron), which is stored as given. *)
Theorem layer_set_weights_places (l : SpikyLayer.t) (n K : nat) (flat : list float) :
  0 < n ->
  layer_shape n K l ->
  length flat = n * (K + 1) ->
  returned (SpikyLayer.set_weights flat l) = Ok tt /\
  printed (SpikyLayer.set_weights flat l) = [] /\
  layer_shape n K (after (SpikyLayer.set_weights flat l)) /\
  forall (j : nat) (x : float),
    flat !! j = Some x ->
    exists node : SpikyNode.t,
      SpikyLayer.nodes (after (SpikyLayer.set_weights flat l)) !! (j / (K + 1)) = Some node /\
      SpikyNode._weights node !! (j `mod` (K + 1)) =
        Some (if j `mod` (K + 1) + 1 =? K + 1 then x else Float.abs x).
Proof.
  intros Hn [Hcount Hwidth] Hflat.
  assert (Hk : length flat / length (SpikyLayer.nodes l) = K + 1).
  { rewrite Hcount, Hflat, Nat.mul_comm. apply Nat.div_mul. lia. }
  assert (Hchunk : forall i, i < n -> length (chunk (K + 1) flat i) = K + 1).
  { intros i Hi. rewrite Hcount in Hk. rewrite <- Hk. apply chunk_length. assumption. }
  assert (Hnode : forall i node, SpikyLayer.nodes l !! i = Some node ->
            SpikyNode.set_weights (chunk (K + 1) flat i) node =
              (Ok tt, SpikyNode.set__weights (abs_but_last (chunk (K + 1) flat i)) node, [])).
  { intros i node Hi. apply set_weights_match.
    rewrite Hchunk by (apply lookup_lt_Some in Hi; lia).
    rewrite Forall_forall in Hwidth. symmetry. apply Hwidth.
    apply list_elem_of_lookup. eauto. }
  split; [apply layer_set_weights_returns|]. split; [|split].
  - rewrite layer_set_weights_printed, Hk.
    rewrite (concat_imap_const _ _ []).
    + generalize (length (SpikyLayer.nodes l)). intros c.
      induction c as [|c IH]; [reflexivity | exact IH].
    + intros j node Hj. rewrite (Hnode j node Hj). reflexivity.
  - unfold layer_shape. rewrite layer_set_weights_after, Hk. unfold handed. split.
    + rewrite length_imap. assumption.
    + apply Forall_forall. intros node' Hin.
      apply list_elem_of_lookup in Hin as [i Hi].
      rewrite list_lookup_imap in Hi.
      destruct (SpikyLayer.nodes l !! i) as [node|] eqn:E; [|discriminate].
      cbn in Hi. rewrite (Hnode i node E) in Hi. injection Hi as <-.
      unfold after; cbn. rewrite abs_but_last_length.
      apply Hchunk. apply lookup_lt_Some in E. lia.
  - intros j x Hj.
    assert (Hjlt : j < n * (K + 1)) by (apply lookup_lt_Some in Hj; lia).
    assert (Hi : j / (K + 1) < n) by (apply Nat.Div0.div_lt_upper_bound; lia).
    assert (Hr : j `mod` (K + 1) < K + 1) by (apply Nat.mod_upper_bound; lia).
    destruct (lookup_lt_is_Some_2 (SpikyLayer.nodes l) (j / (K + 1))) as [node Hnd]; [lia|].
    rewrite layer_set_weights_after, Hk.
    rewrite (handed_lookup _ _ _ _ _ Hnd), (Hnode _ _ Hnd).
    eexists. split; [reflexivity|]. unfold after; cbn.
    assert (Hx : chunk (K + 1) flat (j / (K + 1)) !! (j `mod` (K + 1)) = Some x).
    { rewrite chunk_lookup by assumption. rewrite <- Hj. f_equal.
      rewrite (Nat.div_mod_eq j (K + 1)) at 3. lia. }
    rewrite (abs_but_last_lookup _ _ _ Hx), (Hchunk _ Hi). reflexivity.
Qed.

Lemma layer_set_weights_places_witness :
  SpikyNode._weights <$>
    SpikyLayer.nodes
      (after (SpikyLayer.set_weights
                [Float.decimal (-3) 10; Float.of_int 2; Float.decimal (-4) 10;
                 Float.of_int (-1)]
                two_node_layer))
  = [[Float.decimal 3 10; Float.of_int 2]; [Float.decimal 4 10; Float.of_int (-1)]].
Proof.
  pose (flat := [Float.decimal (-3) 10; Float.of_int 2; Float.decimal (-4) 10;
                 Float.of_int (-1)]).
  destruct (layer_set_weights_places two_node_layer 2 1 flat) as (_ & _ & _ & _).
  - lia.
  - split; [reflexivity | repeat constructor].
  - reflexivity.
  - vm_compute. reflexivity.
Defined.

(** X15: when no neuron of the layer has [m // n] weights, [set_weights]
    changes nothing at all: every neuron keeps its weights and the layer
    prints one diagnostic per neuron, without raising. *)
Theorem layer_set_weights_rejected (l : SpikyLayer.t) (flat : list float) :
  0 < length (SpikyLayer.nodes l) ->
  Forall (fun node => length (SpikyNode._weights node)
                      <> length flat / length (SpikyLayer.nodes l))
         (SpikyLayer.nodes l) ->
  returned (SpikyLayer.set_weights flat l) = Ok tt /\
  after (SpikyLayer.set_weights flat l) = l /\
  printed (SpikyLayer.set_weights flat l)
    = replicate (length (SpikyLayer.nodes l)) WeightMismatch.
Proof.
  intros Hn Hwidth.
  set (k := length flat / length (SpikyLayer.nodes l)) in *.
  assert (Hlen : forall i, i < length (SpikyLayer.nodes l) -> length (chunk k flat i) = k).
  { intros i Hi. apply chunk_length. assumption. }
  assert (Hnode : forall i node, SpikyLayer.nodes l !! i = Some node ->
            SpikyNode.set_weights (chunk k flat i) node = (Ok tt, node, [WeightMismatch])).
  { intros i node Hi. apply set_weights_mismatch.
    rewrite Hlen by (apply lookup_lt_Some in Hi; assumption).
    rewrite Forall_forall in Hwidth. intros He. apply (Hwidth node); [|congruence].
    apply list_elem_of_lookup. eauto. }
  split; [apply layer_set_weights_returns|]. split.
  - assert (Hnodes : SpikyLayer.nodes (after (SpikyLayer.set_weights flat l))
                     = SpikyLayer.nodes l).
    { rewrite layer_set_weights_after. fold k. unfold handed.
      apply list_eq. intros i. rewrite list_lookup_imap.
      destruct (SpikyLayer.nodes l !! i) as [node|] eqn:E; [|reflexivity].
      cbn. rewrite (Hnode i node E). reflexivity. }
    destruct (after (SpikyLayer.set_weights flat l)) as [ns], l as [ns'].
    cbn in Hnodes. congruence.
  - rewrite layer_set_weights_printed. fold k.
    rewrite (concat_imap_const _ _ [WeightMismatch]).
    + generalize (length (SpikyLayer.nodes l)). intros c.
      induction c as [|c IH]; [reflexivity|]. cbn. rewrite IH. reflexivity.
    + intros j node Hj. rewrite (Hnode j node Hj). reflexivity.
Qed.

Lemma layer_set_weights_rejected_witness :
  SpikyLayer.set_weights [Float.of_int 3; Float.of_int 4; Float.of_int 5] two_node_layer
    = (Ok tt, two_node_layer, [WeightMismatch; WeightMismatch]).
Proof.
  destruct (layer_set_weights_rejected two_node_layer
              [Float.of_int 3; Float.of_int 4; Float.of_int 5])
    as (Hr & Ha & Hp).
  - cbn. lia.
  - repeat constructor; cbn; lia.
  - destruct (SpikyLayer.set_weights _ two_node_layer) as [[r s] p].
    unfold returned, after, printed in *; cbn in *. subst. reflexivity.
Defined.

(** ** Duty cycles of a layer *)

Lemma duty_cycles_loop_all (window : option Z) (P : float -> Prop) (todo : list SpikyNode.t) :
  Forall (fun node => exists d, SpikyNode.duty_cycle window node = (Ok d, node, []) /\ P d)
         todo ->
  exists ds : list float,
    SpikyLayer.duty_cycles_loop window todo = (Ok ds, todo, []) /\
    Forall2 (fun node d => SpikyNode.duty_cycle window node = (Ok d, node, []) /\ P d)
            todo ds.
Proof.
  induction 1 as [|node todo (d & Hd & HP) _ (ds & Hds & Hall)].
  - exists []. split; [reflexivity | constructor].
  - exists (d :: ds). cbn [SpikyLayer.duty_cycles_loop]. rewrite Hd, Hds. cbn.
    split; [reflexivity|]. constructor; [split; assumption | assumption].
Qed.

(** X16: on a layer whose neurons hold histories of 0s and 1s,
    [duty_cycles] with [None] or a positive window raises nothing, leaves
    the layer as it is, and returns one value per neuron, in neuron order:
    that neuron's own duty cycle, between 0.0 and 1.0. *)
Theorem layer_duty_cycles (l : SpikyLayer.t) (window : option Z) :
  Forall node_wf (SpikyLayer.nodes l) ->
  window = None \/ (exists w : Z, window = Some w /\ (0 < w)%Z) ->
  exists ds : list float,
    SpikyLayer.duty_cycles window l = (Ok ds, l, []) /\
    Forall2 (fun node d =>
               SpikyNode.duty_cycle window node = (Ok d, node, []) /\
               Float.geb d Float.zero = true /\ Float.geb Float.one d = true)
            (SpikyLayer.nodes l) ds.
Proof.
  intros Hwf Hwin.
  destruct (duty_cycles_loop_all window
              (fun d => Float.geb d Float.zero = true /\ Float.geb Float.one d = true)
              (SpikyLayer.nodes l)) as (ds & Hds & Hall).
  - apply Forall_forall. intros node Hin. rewrite Forall_forall in Hwf.
    destruct (history node) as [|v h] eqn:Eh.
    + exists Float.zero. rewrite (duty_cycle_empty node window Eh). repeat split.
    + destruct (duty_cycle_range_nonempty node window (Hwf node Hin)) as (q & Hq & Hb);
        [rewrite Eh; discriminate | assumption |].
      exists q. split; assumption.
  - exists ds. split; [|exact Hall].
    unfold SpikyLayer.duty_cycles, zoom. rewrite Hds. destruct l; reflexivity.
Qed.

Lemma node_of_wf (w : list float) (l : float) : node_wf (node_of w l).
Proof.
  unfold node_wf, node_of; cbn. split; [|split; [reflexivity | constructor]].
  apply wf_init. unfold MAX_FIRELOG_SIZE. lia.
Qed.

Lemma layer_duty_cycles_witness :
  SpikyLayer.duty_cycles None {| SpikyLayer.nodes := [short_history_node; resting_node] |}
    = (Ok [Float.decimal 75 100; Float.zero],
       {| SpikyLayer.nodes := [short_history_node; resting_node] |}, []).
Proof.
  destruct (layer_duty_cycles {| SpikyLayer.nodes := [short_history_node; resting_node] |} None)
    as (ds & -> & Hall).
  - apply List.Forall_cons; [apply short_history_node_wf|].
    apply List.Forall_cons; [apply node_of_wf | apply List.Forall_nil].
  - left. reflexivity.
  - cbn in Hall.
    inversion Hall as [|n1 d1 ns1 ds1 [H1 _] Hall1]; subst.
    inversion Hall1 as [|n2 d2 ns2 ds2 [H2 _] Hall2]; subst.
    inversion Hall2; subst.
    vm_compute in H1. vm_compute in H2. injection H1 as <-. injection H2 as <-.
    reflexivity.
Defined.

Lemma duty_cycle_zero_window (n : SpikyNode.t) :
  history n <> [] ->
  SpikyNode.duty_cycle (Some 0%Z) n = (Raise ZeroDivisionError, n, []).
Proof.
  intros H.
  assert (Hlen : 0 < length (history n)) by (destruct (history n); [congruence | cbn; lia]).
  rewrite history_length in Hlen.
  unfold SpikyNode.duty_cycle. run.
  destruct (Nat.eqb_spec (RingBuffer.length (SpikyNode.firelog n)) 0); [lia|].
  replace (0 >? Z.of_nat (RingBuffer.length (SpikyNode.firelog n)))%Z with false
    by (symmetry; rewrite Z.gtb_ltb; apply Z.ltb_ge; lia).
  reflexivity.
Qed.

(** X17: [duty_cycles(0)] on a layer raises ZeroDivisionError at the
    first neuron that has some history, and returns no value for any
    neuron; neurons without history before it answer 0.0 and do not
    raise.  The layer is unchanged. *)
Theorem layer_duty_cycles_zero_window
    (l : SpikyLayer.t) (before after_ : list SpikyNode.t) (node : SpikyNode.t) :
  SpikyLayer.nodes l = before ++ node :: after_ ->
  Forall (fun n => history n = []) before ->
  history node <> [] ->
  SpikyLayer.duty_cycles (Some 0%Z) l = (Raise ZeroDivisionError, l, []).
Proof.
  intros Hnodes Hbefore Hnode.
  assert (Hloop : SpikyLayer.duty_cycles_loop (Some 0%Z) (before ++ node :: after_)
                  = (Raise ZeroDivisionError, before ++ node :: after_, [])).
  { clear Hnodes.
    induction Hbefore as [|n before Hn _ IH]; cbn [app SpikyLayer.duty_cycles_loop].
    - rewrite (duty_cycle_zero_window node Hnode). reflexivity.
    - rewrite (duty_cycle_empty n (Some 0%Z) Hn), IH. reflexivity. }
  unfold SpikyLayer.duty_cycles, zoom. rewrite Hnodes, Hloop, <- Hnodes.
  destruct l; reflexivity.
Qed.

Lemma layer_duty_cycles_zero_window_witness :
  SpikyLayer.duty_cycles (Some 0%Z)
      {| SpikyLayer.nodes := [resting_node; short_history_node; charged_node] |}
    = (Raise ZeroDivisionError,
       {| SpikyLayer.nodes := [resting_node; short_history_node; charged_node] |}, []).
Proof.
  apply (layer_duty_cycles_zero_window _ [resting_node] [charged_node] short_history_node).
  - reflexivity.
  - repeat constructor.
  - discriminate.
Defined.

(** ** The network *)

Lemma net_compute_eq (net : SpikyNet.t) (inputs : list float) (firelog_window : Z) :
  SpikyNet.compute inputs firelog_window net =
    (Ok (map (node_output (map (node_output inputs)
                             (SpikyLayer.nodes (SpikyNet.hidden_layer net))))
             (SpikyLayer.nodes (SpikyNet.output_layer net)),
         map (node_level (map (node_output inputs)
                            (SpikyLayer.nodes (SpikyNet.hidden_layer net))))
             (SpikyLayer.nodes (SpikyNet.output_layer net))),
     {| SpikyNet.hidden_layer :=
          {| SpikyLayer.nodes :=
               map (node_step inputs) (SpikyLayer.nodes (SpikyNet.hidden_layer net)) |};
        SpikyNet.output_layer :=
          {| SpikyLayer.nodes :=
               map (node_step (map (node_output inputs)
                                 (SpikyLayer.nodes (SpikyNet.hidden_layer net))))
                   (SpikyLayer.nodes (SpikyNet.output_layer net)) |} |},
     concat (map (fun n => printed (SpikyNode.compute inputs n))
                 (SpikyLayer.nodes (SpikyNet.hidden_layer net))) ++
     concat (map (fun n => printed (SpikyNode.compute
                                      (map (node_output inputs)
                                         (SpikyLayer.nodes (SpikyNet.hidden_layer net))) n))
                 (SpikyLayer.nodes (SpikyNet.output_layer net)))).
Proof.
  unfold SpikyNet.compute. run. rewrite layer_compute_eq. cbn.
  rewrite layer_compute_eq. cbn. rewrite app_nil_r. reflexivity.
Qed.

Lemma net_compute_printed (net : SpikyNet.t) (inputs : list float) (firelog_window : Z) :
  printed (SpikyNet.compute inputs firelog_window net) =
    concat (map (fun n => printed (SpikyNode.compute inputs n))
                (SpikyLayer.nodes (SpikyNet.hidden_layer net))) ++
    concat (map (fun n => printed (SpikyNode.compute
                                     (map (node_output inputs)
                                        (SpikyLayer.nodes (SpikyNet.hidden_layer net))) n))
                (SpikyLayer.nodes (SpikyNet.output_layer net))).
Proof. rewrite net_compute_eq. reflexivity. Qed.

Lemma net_compute_returned (net : SpikyNet.t) (inputs : list float) (firelog_window : Z) :
  returned (SpikyNet.compute inputs firelog_window net) =
    Ok (map (node_output (map (node_output inputs)
                            (SpikyLayer.nodes (SpikyNet.hidden_layer net))))
            (SpikyLayer.nodes (SpikyNet.output_layer net)),
        map (node_level (map (node_output inputs)
                           (SpikyLayer.nodes (SpikyNet.hidden_layer net))))
            (SpikyLayer.nodes (SpikyNet.output_layer net))).
Proof. rewrite net_compute_eq. reflexivity. Qed.

Lemma net_compute_after (net : SpikyNet.t) (inputs : list float) (firelog_window : Z) :
  after (SpikyNet.compute inputs firelog_window net) =
    {| SpikyNet.hidden_layer :=
         {| SpikyLayer.nodes :=
              map (node_step inputs) (SpikyLayer.nodes (SpikyNet.hidden_layer net)) |};
       SpikyNet.output_layer :=
         {| SpikyLayer.nodes :=
              map (node_step (map (node_output inputs)
                                (SpikyLayer.nodes (SpikyNet.hidden_layer net))))
                  (SpikyLayer.nodes (SpikyNet.output_layer net)) |} |}.
Proof. rewrite net_compute_eq. reflexivity. Qed.

(** X18: a new network has [hidden_size] hidden neurons with
    [input_size + 1] weights each and [output_size] output neurons with
    [hidden_size + 1] weights each, so the output layer takes exactly the
    hidden layer's outputs; building it consumes
    [hidden_size * (input_size + 1) + output_size * (hidden_size + 1)]
    samples, the hidden layer's first. *)
Theorem net_init_shape (input_size hidden_size output_size : nat) (g : RandomState) :
  net_shape input_size hidden_size output_size
    (SpikyNet.__init__ input_size hidden_size output_size g).1 /\
  SpikyLayer.nodes
    (SpikyNet.hidden_layer (SpikyNet.__init__ input_size hidden_size output_size g).1)
    = (SpikyLayer.make_nodes hidden_size input_size g).1 /\
  SpikyLayer.nodes
    (SpikyNet.output_layer (SpikyNet.__init__ input_size hidden_size output_size g).1)
    = (SpikyLayer.make_nodes output_size hidden_size
         {| sample := sample g;
            position := position g + hidden_size * (input_size + 1) |}).1 /\
  (SpikyNet.__init__ input_size hidden_size output_size g).2 =
    {| sample := sample g;
       position := position g + hidden_size * (input_size + 1)
                   + output_size * (hidden_size + 1) |}.
Proof.
  unfold SpikyNet.__init__, SpikyLayer.__init__.
  destruct (make_nodes_shape hidden_size input_size g) as [Hh Hg].
  destruct (SpikyLayer.make_nodes hidden_size input_size g) as [hs g'].
  cbn [fst snd] in Hh, Hg. subst g'.
  set (g' := {| sample := sample g; position := position g + hidden_size * (input_size + 1) |}).
  destruct (make_nodes_shape output_size hidden_size g') as [Ho Hg'].
  destruct (SpikyLayer.make_nodes output_size hidden_size g') as [os g''].
  cbn [fst snd] in *. subst g''. split; [|split; [reflexivity | split; reflexivity]].
  unfold net_shape, layer_shape; cbn. subst hs os.
  rewrite !length_map, !length_seq. repeat split.
  - apply Forall_map, Forall_forall. intros j _. cbn. rewrite length_map, length_seq. reflexivity.
  - apply Forall_map, Forall_forall. intros j _. cbn. rewrite length_map, length_seq. reflexivity.
Qed.

(** X19: [compute] on a network never raises.  The hidden layer is
    stepped on the inputs, the output layer on the hidden layer's firing
    outputs; the result has one firing output (0.0 or 1.0) and one level
    per output neuron, the hidden levels are not returned, and
    [firelog_window] has no effect at all. *)
Theorem net_compute_never_raises (net : SpikyNet.t) (inputs : list float) (firelog_window : Z) :
  exists outputs levels : list float,
    returned (SpikyNet.compute inputs firelog_window net) = Ok (outputs, levels) /\
    length outputs = length (SpikyLayer.nodes (SpikyNet.output_layer net)) /\
    length levels = length (SpikyLayer.nodes (SpikyNet.output_layer net)) /\
    Forall binary outputs /\
    levels = map SpikyNode.level
               (SpikyLayer.nodes
                  (SpikyNet.output_layer (after (SpikyNet.compute inputs firelog_window net)))) /\
    SpikyNet.hidden_layer (after (SpikyNet.compute inputs firelog_window net))
      = after (SpikyLayer.compute inputs (SpikyNet.hidden_layer net)) /\
    (forall hidden_output hidden_levels : list float,
       returned (SpikyLayer.compute inputs (SpikyNet.hidden_layer net))
         = Ok (hidden_output, hidden_levels) ->
       SpikyNet.output_layer (after (SpikyNet.compute inputs firelog_window net))
         = after (SpikyLayer.compute hidden_output (SpikyNet.output_layer net))) /\
    forall other_window : Z,
      SpikyNet.compute inputs other_window net = SpikyNet.compute inputs firelog_window net.
Proof.
  do 2 eexists. rewrite !net_compute_eq. unfold returned, after; cbn.
  split; [reflexivity|]. rewrite !length_map.
  split; [reflexivity|]. split; [reflexivity|]. split; [|split; [|split; [|split]]].
  - apply Forall_map, Forall_forall. intros n _. apply node_output_binary.
  - rewrite map_map. reflexivity.
  - rewrite layer_compute_eq. reflexivity.
  - intros ho hl Hh. rewrite layer_compute_eq in Hh. cbn in Hh.
    injection Hh as <- _. rewrite layer_compute_eq. reflexivity.
  - intros other. rewrite net_compute_eq. reflexivity.
Qed.

Lemma compute_silent (n : SpikyNode.t) (inputs : list float) :
  length inputs + 1 = length (SpikyNode._weights n) ->
  printed (SpikyNode.compute inputs n) = [].
Proof.
  intros He. destruct (last_is_Some (SpikyNode._weights n)) as [b Hb]; [lia|].
  rewrite (compute_match n inputs b He Hb). destruct (Float.geb _ b); reflexivity.
Qed.

Lemma layer_compute_silent (c K : nat) (l : SpikyLayer.t) (inputs : list float) :
  layer_shape c K l -> length inputs = K ->
  concat (map (fun n => printed (SpikyNode.compute inputs n)) (SpikyLayer.nodes l)) = [].
Proof.
  intros [_ Hw] Hlen. induction Hw as [|n ns Hn _ IH]; [reflexivity|].
  cbn. rewrite compute_silent by lia. exact IH.
Qed.

Lemma layer_shape_step (c K : nat) (l : SpikyLayer.t) (inputs : list float) :
  layer_shape c K l ->
  layer_shape c K {| SpikyLayer.nodes := map (node_step inputs) (SpikyLayer.nodes l) |}.
Proof.
  intros [Hc Hw]. split; cbn.
  - rewrite length_map. assumption.
  - apply Forall_map. eapply Forall_impl; [exact Hw|].
    intros n Hn. cbn. unfold node_step. rewrite compute_weights. assumption.
Qed.

(** X20: on a network of sizes [(i, h, o)], [compute] with [i] inputs
    prints no diagnostic at either layer, returns [o] firing outputs and
    [o] levels, and leaves a network of the same sizes. *)
Theorem net_compute_well_shaped
    (net : SpikyNet.t) (i h o : nat) (inputs : list float) (firelog_window : Z) :
  net_shape i h o net ->
  length inputs = i ->
  printed (SpikyNet.compute inputs firelog_window net) = [] /\
  (exists outputs levels : list float,
     returned (SpikyNet.compute inputs firelog_window net) = Ok (outputs, levels) /\
     length outputs = o /\ length levels = o /\ Forall binary outputs) /\
  net_shape i h o (after (SpikyNet.compute inputs firelog_window net)).
Proof.
  intros [Hh Ho] Hlen.
  rewrite net_compute_printed, net_compute_returned, net_compute_after.
  split; [|split].
  - rewrite (layer_compute_silent h i _ _ Hh Hlen).
    rewrite (layer_compute_silent o h _ _ Ho); [reflexivity|].
    rewrite length_map. apply Hh.
  - do 2 eexists. split; [reflexivity|]. rewrite !length_map.
    destruct Ho as [Hc _]. repeat split; try assumption.
    apply Forall_map, Forall_forall. intros n _. apply node_output_binary.
  - split; cbn; apply layer_shape_step; assumption.
Qed.

Lemma net_compute_well_shaped_witness :
  printed (SpikyNet.compute [Float.of_int 1; Float.of_int 1] 100
             (SpikyNet.__init__ 2 3 2 constant_source).1) = [].
Proof.
  refine (proj1 (net_compute_well_shaped (SpikyNet.__init__ 2 3 2 constant_source).1
                   2 3 2 [Float.of_int 1; Float.of_int 1] 100 _ _)).
  - split; (split; [reflexivity | repeat constructor]).
  - reflexivity.
Defined.

Lemma layer_compute_rejected (c K : nat) (l : SpikyLayer.t) (inputs : list float) :
  layer_shape c K l -> length inputs <> K ->
  map (node_output inputs) (SpikyLayer.nodes l) = replicate c Float.zero /\
  map (node_step inputs) (SpikyLayer.nodes l) =
    map (fun n => SpikyNode.set_level (decayed (SpikyNode.level n)) n) (SpikyLayer.nodes l) /\
  concat (map (fun n => printed (SpikyNode.compute inputs n)) (SpikyLayer.nodes l)) =
    map (fun n => InputMismatch (length inputs) (K + 1) (SpikyNode._weights n))
        (SpikyLayer.nodes l).
Proof.
  intros [Hc Hw] Hlen. subst c.
  induction Hw as [|n ns Hn _ IH]; [repeat split|].
  destruct IH as (IH1 & IH2 & IH3).
  assert (Hne : length inputs + 1 <> length (SpikyNode._weights n)) by lia.
  cbn [map concat length replicate]. rewrite IH1, IH2, IH3.
  unfold node_output, node_step. rewrite (compute_mismatch n inputs Hne).
  unfold returned, after, printed; cbn. rewrite Hn. repeat split.
Qed.

(** X21: an input of the wrong length does not stop a network of sizes
    [(i, h, o)].  Every hidden neuron prints its diagnostic, only decays
    its level and records nothing; the output layer is then stepped on
    [h] zeros, without any diagnostic, so its neurons do log a step (and
    fire if their bias allows). *)
Theorem net_compute_wrong_width
    (net : SpikyNet.t) (i h o : nat) (inputs : list float) (firelog_window : Z) :
  net_shape i h o net ->
  length inputs <> i ->
  printed (SpikyNet.compute inputs firelog_window net) =
    map (fun n => InputMismatch (length inputs) (i + 1) (SpikyNode._weights n))
        (SpikyLayer.nodes (SpikyNet.hidden_layer net)) /\
  SpikyLayer.nodes (SpikyNet.hidden_layer (after (SpikyNet.compute inputs firelog_window net)))
    = map (fun n => SpikyNode.set_level (decayed (SpikyNode.level n)) n)
          (SpikyLayer.nodes (SpikyNet.hidden_layer net)) /\
  SpikyNet.output_layer (after (SpikyNet.compute inputs firelog_window net))
    = after (SpikyLayer.compute (replicate h Float.zero) (SpikyNet.output_layer net)) /\
  returned (SpikyNet.compute inputs firelog_window net)
    = returned (SpikyLayer.compute (replicate h Float.zero) (SpikyNet.output_layer net)).
Proof.
  intros [Hh Ho] Hlen.
  rewrite net_compute_printed, net_compute_returned, net_compute_after.
  destruct (layer_compute_rejected h i _ inputs Hh Hlen) as (Hout & Hstep & Hprint).
  rewrite Hout, Hstep, Hprint, layer_compute_eq.
  rewrite (layer_compute_silent o h _ _ Ho) by apply length_replicate.
  rewrite app_nil_r. repeat split.
Qed.

Lemma net_compute_wrong_width_witness :
  length (printed (SpikyNet.compute [Float.of_int 1] 100
                     (SpikyNet.__init__ 2 3 2 constant_source).1)) = 3.
Proof.
  destruct (net_compute_wrong_width (SpikyNet.__init__ 2 3 2 constant_source).1
              2 3 2 [Float.of_int 1] 100) as (-> & _).
  - split; (split; [reflexivity | repeat constructor]).
  - cbn. lia.
  - reflexivity.
Defined.

Lemma layer_set_weights_shape (c K : nat) (l : SpikyLayer.t) (flat : list float) :
  layer_shape c K l -> layer_shape c K (after (SpikyLayer.set_weights flat l)).
Proof.
  intros [Hc Hw]. unfold layer_shape. rewrite layer_set_weights_after. unfold handed. split.
  - rewrite length_imap. assumption.
  - apply Forall_forall. intros node' Hin.
    apply list_elem_of_lookup in Hin as [j Hj]. rewrite list_lookup_imap in Hj.
    destruct (SpikyLayer.nodes l !! j) as [node|] eqn:E; [|discriminate].
    cbn in Hj. injection Hj as <-.
    pose proof (do_call_weights_length node
                  (CallSetWeights
                     (chunk (length flat / length (SpikyLayer.nodes l)) flat j))) as Hd.
    cbn [do_call] in Hd.
    rewrite Hd. rewrite Forall_forall in Hw. apply Hw.
    apply list_elem_of_lookup. eauto.
Qed.

(** X22: with both keys present, [set_weights] on a network raises
    nothing: it assigns the hidden vector to the hidden layer, then the
    output vector to the output layer, printing their diagnostics in that
    order; any other key of the genome is ignored, and the sizes of the
    network are kept whatever the lengths of the two vectors. *)
Theorem net_set_weights_both_keys
    (net : SpikyNet.t) (genome : gmap string (list float)) (hidden output : list float) :
  genome !! "hidden_layer" = Some hidden ->
  genome !! "output_layer" = Some output ->
  returned (SpikyNet.set_weights genome net) = Ok tt /\
  SpikyNet.hidden_layer (after (SpikyNet.set_weights genome net))
    = after (SpikyLayer.set_weights hidden (SpikyNet.hidden_layer net)) /\
  SpikyNet.output_layer (after (SpikyNet.set_weights genome net))
    = after (SpikyLayer.set_weights output (SpikyNet.output_layer net)) /\
  printed (SpikyNet.set_weights genome net)
    = printed (SpikyLayer.set_weights hidden (SpikyNet.hidden_layer net)) ++
      printed (SpikyLayer.set_weights output (SpikyNet.output_layer net)) /\
  forall i h o : nat,
    net_shape i h o net -> net_shape i h o (after (SpikyNet.set_weights genome net)).
Proof.
  intros Hh Ho.
  assert (Hhid : SpikyNet.hidden_layer (after (SpikyNet.set_weights genome net))
                 = after (SpikyLayer.set_weights hidden (SpikyNet.hidden_layer net)) /\
                 SpikyNet.output_layer (after (SpikyNet.set_weights genome net))
                 = after (SpikyLayer.set_weights output (SpikyNet.output_layer net)) /\
                 returned (SpikyNet.set_weights genome net) = Ok tt /\
                 printed (SpikyNet.set_weights genome net)
                 = printed (SpikyLayer.set_weights hidden (SpikyNet.hidden_layer net)) ++
                   printed (SpikyLayer.set_weights output (SpikyNet.output_layer net))).
  { unfold SpikyNet.set_weights, SpikyNet.getitem. run. rewrite Hh, Ho.
    pose proof (layer_set_weights_returns hidden (SpikyNet.hidden_layer net)) as Hr1.
    pose proof (layer_set_weights_returns output (SpikyNet.output_layer net)) as Hr2.
    unfold returned in Hr1, Hr2.
    destruct (SpikyLayer.set_weights hidden (SpikyNet.hidden_layer net)) as [[r1 h'] p1].
    cbn in *. subst r1. cbn.
    destruct (SpikyLayer.set_weights output (SpikyNet.output_layer net)) as [[r2 o'] p2].
    cbn in *. subst r2. repeat split. }
  destruct Hhid as (H1 & H2 & H3 & H4).
  split; [assumption|]. split; [assumption|]. split; [assumption|]. split; [assumption|].
  intros i h o [Hsh Hso]. split.
  - rewrite H1. apply layer_set_weights_shape. assumption.
  - rewrite H2. apply layer_set_weights_shape. assumption.
Qed.

Lemma net_set_weights_both_keys_witness :
  returned (SpikyNet.set_weights scenario_genome (SpikyNet.__init__ 2 1 1 constant_source).1)
    = Ok tt.
Proof.
  refine (proj1 (net_set_weights_both_keys (SpikyNet.__init__ 2 1 1 constant_source).1
                   scenario_genome
                   [Float.of_int 1; Float.of_int 1; Float.decimal 5 10]
                   [Float.of_int 1; Float.decimal 5 10] _ _)); reflexivity.
Defined.

(** ** The bias and the weighted sum *)

Lemma zip_with_insert_beyond {A B C} (f : A -> B -> C) (l : list A) :
  forall (k : list B) (i : nat) (x : B),
    length l <= i -> zip_with f l (<[i := x]> k) = zip_with f l k.
Proof.
  induction l as [|a l IH]; intros k i x Hi; [reflexivity|].
  destruct k as [|b k]; [reflexivity|].
  destruct i as [|i]; [cbn in Hi; lia|].
  cbn. f_equal. apply IH. cbn in Hi. lia.
Qed.

(** X23: the bias is a threshold only and never part of the sum.  After
    [set_bias(v)], [compute] on an input of the right width forms the same
    weighted sum and logs the same level as it would have done without
    the change, and fires exactly when that level is at least [v]. *)
Theorem bias_is_threshold_only (n : SpikyNode.t) (inputs : list float) (val : float) :
  length inputs + 1 = length (SpikyNode._weights n) ->
  SpikyNode.weighted_sum inputs (SpikyNode._weights (after (SpikyNode.set_bias val n)))
    = SpikyNode.weighted_sum inputs (SpikyNode._weights n) /\
  exists reached : float,
    SpikyNode.levels_log (after (SpikyNode.compute inputs n))
      = SpikyNode.levels_log n ++ [reached] /\
    SpikyNode.levels_log
      (after (SpikyNode.compute inputs (after (SpikyNode.set_bias val n))))
      = SpikyNode.levels_log n ++ [reached] /\
    returned (SpikyNode.compute inputs (after (SpikyNode.set_bias val n)))
      = if Float.geb reached val
        then Ok (Float.one, Float.neg_inf)
        else Ok (Float.zero, reached).
Proof.
  intros Hlen.
  assert (Hne : SpikyNode._weights n <> []).
  { intros E. rewrite E in Hlen. cbn in Hlen. lia. }
  destruct (last_is_Some (SpikyNode._weights n)) as [b Hb]; [lia|].
  set (n' := SpikyNode.set__weights
               (<[length (SpikyNode._weights n) - 1 := val]> (SpikyNode._weights n)) n).
  assert (Hsb : after (SpikyNode.set_bias val n) = n')
    by (rewrite (set_bias_nonempty n val Hne); reflexivity).
  rewrite !Hsb.
  assert (Hlen' : length inputs + 1 = length (SpikyNode._weights n'))
    by (subst n'; cbn; rewrite length_insert; assumption).
  assert (Hb' : last (SpikyNode._weights n') = Some val).
  { subst n'; cbn. rewrite last_lookup, length_insert.
    replace (pred (length (SpikyNode._weights n)))
      with (length (SpikyNode._weights n) - 1) by lia.
    apply list_lookup_insert_eq. lia. }
  assert (Hdot : dot inputs (SpikyNode._weights n') = dot inputs (SpikyNode._weights n)).
  { subst n'; unfold dot; cbn. rewrite zip_with_insert_beyond by lia. reflexivity. }
  assert (Hc : charged n' inputs = charged n inputs).
  { unfold charged. rewrite Hdot. reflexivity. }
  split.
  - rewrite !weighted_sum_dot by lia. rewrite Hdot. reflexivity.
  - exists (charged n inputs).
    rewrite (compute_match n inputs b Hlen Hb), (compute_match n' inputs val Hlen' Hb'), Hc.
    split; [destruct (Float.geb _ b); reflexivity|].
    destruct (Float.geb (charged n inputs) val); split; reflexivity.
Qed.

Lemma bias_is_threshold_only_witness :
  SpikyNode.weighted_sum [Float.of_int 1; Float.of_int 1]
    (SpikyNode._weights (after (SpikyNode.set_bias (Float.of_int 7) resting_node)))
  = Ok (Float.of_int 2).
Proof.
  destruct (bias_is_threshold_only resting_node [Float.of_int 1; Float.of_int 1]
              (Float.of_int 7)) as [-> _].
  - reflexivity.
  - vm_compute. reflexivity.
Defined.

(** ** Steps of the wrong width *)

Lemma iter_decayed_shift (c : nat) (l : float) :
  Nat.iter c decayed (decayed l) = decayed (Nat.iter c decayed l).
Proof.
  induction c as [|c IH]; [reflexivity|]. rewrite !Nat.iter_succ, IH. reflexivity.
Qed.

Lemma run_inputs_rejected_aux (steps : list (list float)) :
  forall n : SpikyNode.t,
    Forall (fun inputs => length inputs + 1 <> length (SpikyNode._weights n)) steps ->
    run_inputs n steps =
      SpikyNode.set_level (Nat.iter (length steps) decayed (SpikyNode.level n)) n.
Proof.
  unfold run_inputs.
  induction steps as [|inputs steps IH]; intros n Hall; cbn [foldl length Nat.iter].
  - destruct n; reflexivity.
  - apply Forall_cons in Hall as [Hne Hall].
    rewrite (compute_mismatch n inputs Hne). unfold after; cbn [fst snd].
    rewrite IH by exact Hall.
    unfold SpikyNode.set_level;
      cbn [SpikyNode._weights SpikyNode.level SpikyNode.firelog SpikyNode.levels_log].
    rewrite Nat.iter_succ, iter_decayed_shift. reflexivity.
Qed.

(** X24: inputs of the wrong width are not free of effect.  A run of
    them leaves weights, firing history and levels log as they were, but
    the level has decayed once per call; a neuron at rest stays at rest. *)
Theorem rejected_steps_only_decay (n : SpikyNode.t) (steps : list (list float)) :
  Forall (fun inputs => length inputs + 1 <> length (SpikyNode._weights n)) steps ->
  run_inputs n steps =
    SpikyNode.set_level (Nat.iter (length steps) decayed (SpikyNode.level n)) n /\
  (SpikyNode.level n = Float.neg_inf -> run_inputs n steps = n).
Proof.
  intros Hall. rewrite (run_inputs_rejected_aux steps n Hall). split; [reflexivity|].
  intros Hrest. rewrite Hrest.
  assert (Hit : Nat.iter (length steps) decayed Float.neg_inf = Float.neg_inf).
  { induction (length steps) as [|c IH]; [reflexivity|]. rewrite Nat.iter_succ, IH.
    apply decayed_neg_inf. }
  rewrite Hit, <- Hrest. destruct n; reflexivity.
Qed.

Lemma rejected_steps_only_decay_witness :
  SpikyNode.level (run_inputs charged_node [[]; [Float.of_int 1; Float.of_int 1]])
    = decayed (decayed (Float.of_int 1)).
Proof.
  destruct (rejected_steps_only_decay charged_node [[]; [Float.of_int 1; Float.of_int 1]])
    as [-> _].
  - repeat constructor; cbn; lia.
  - reflexivity.
Defined.
